(** * stress-epoll: a shallow embedding of the epoll stressor

    The development follows src/stress-epoll.c.  The stressor forks
    [max_servers] server processes (epoll_server), runs a connect/send/close
    loop in the calling process (epoll_client) and reaps the servers
    (stress_epoll).

    System calls are not interpreted: every call made by the code takes its
    result from an oracle supplied by the caller of the model, and every call
    is recorded, in program order, in a trace.  Two pieces of kernel state that
    the specification talks about are tracked next to the trace: the set of
    socket paths present in the file system and the POSIX timers of the
    process. *)

From Stdlib Require Import ZArith List String Ascii Bool Lia DecimalString.
From Stdlib Require DecimalPos DecimalZ.
Import ListNotations.

Local Open Scope string_scope.
Local Open Scope list_scope.
Local Open Scope Z_scope.

(** ** Platform constants (Linux; the file is compiled under __linux__) *)

Module Sys.

Definition AF_UNIX : Z := 1.
Definition AF_INET : Z := 2.
Definition AF_INET6 : Z := 10.

Definition ENOENT : Z := 2.
Definition EINTR : Z := 4.
Definition EAGAIN : Z := 11.
Definition EWOULDBLOCK : Z := 11.
Definition ENFILE : Z := 23.
Definition EMFILE : Z := 24.
Definition ECONNREFUSED : Z := 111.

Definition EPOLLIN : Z := 1.
Definition EPOLLERR : Z := 8.
Definition EPOLLHUP : Z := 16.

Definition SIGKILL : Z := 9.
Definition SIGALRM : Z := 14.
Definition SIGRTMIN : Z := 34.

Definition INADDR_ANY : Z := 0.
Definition INADDR_LOOPBACK : Z := 2130706433.

Definition EXIT_SUCCESS : Z := 0.
Definition EXIT_FAILURE : Z := 1.

End Sys.

Export Sys.

Definition MAX_EPOLL_EVENTS : Z := 1024.
Definition MAX_SERVERS : Z := 4.

(** ** Fixed-width integers, with the wrap-around written out *)

(** conversion to unsigned int / uint32_t *)
Definition uint32 (z : Z) : Z := z mod 2 ^ 32.

(** conversion to int *)
Definition sint32 (z : Z) : Z := (z + 2 ^ 31) mod 2 ^ 32 - 2 ^ 31.

(** conversion to uint64_t *)
Definition uint64 (z : Z) : Z := z mod 2 ^ 64.

(** htons(port): the argument is converted to uint16_t; the byte order of the
    result is a matter of representation and the model keeps the port number. *)
Definition htons (z : Z) : Z := z mod 2 ^ 16.

(** ** What the program does to the outside world *)

Inductive endpoint : Type :=
| SockaddrIn (addr port : Z)      (* struct sockaddr_in: sin_addr, sin_port *)
| SockaddrIn6 (any : bool) (port : Z)
                                  (* struct sockaddr_in6: in6addr_any or
                                     in6addr_loopback, sin6_port *)
| SockaddrUn (path : string).     (* struct sockaddr_un: sun_path *)

Inductive event : Type :=
| Stderr (text : string)                  (* fprintf(stderr, ...) *)
| PrDbg (what : string)                   (* pr_dbg *)
| PrFailedDbg (what : string)             (* pr_failed_dbg(name, what) *)
| PrFailedErr (what : string)             (* pr_failed_err(name, what) *)
| Sigaction (signo res : Z)
| Socket (domain res : Z)
| Setsockopt (fd res : Z)
| Bind (fd : Z) (a : endpoint) (res : Z)
| FcntlGetfl (fd res : Z)
| FcntlSetfl (fd res : Z)
| Listen (fd res : Z)
| EpollCreate1 (res : Z)
| EpollCtlAdd (efd fd res : Z)
| Calloc (ok : bool)
| EpollWait (efd res : Z)
| Accept (sfd res : Z)
| Recv (fd res : Z)
| TimerCreate (signo res : Z)
| TimerSettime (nsec res : Z)
| Connect (fd : Z) (a : endpoint) (res : Z)
| TimerDelete (res : Z)
| Send (fd : Z) (buf : list Z) (res : Z)
| Close (fd : Z)
| Usleep (usec : Z)
| SchedYield
| Unlink (path : string)
| Fork (child res : Z)
| Kill (pid signo : Z)
| Waitpid (pid res : Z)
| Free.

(** The part of the world a process acts on. *)
Record world : Type := mkWorld {
  trace : list event;    (* oldest event first *)
  paths : list string;   (* socket paths present in the file system *)
  timers : list bool     (* the POSIX timers of the process, the one named by
                            epoll_timerid first; [true] is an armed timer *)
}.

Definition emit (e : event) (w : world) : world :=
  mkWorld (trace w ++ [e]) (paths w) (timers w).

Definition set_timers (ts : list bool) (w : world) : world :=
  mkWorld (trace w) (paths w) ts.

(** bind(2) on a sockaddr_un creates the path, unlink(2) removes it. *)
Definition path_created (p : string) (w : world) : world :=
  mkWorld (trace w) (p :: paths w) (timers w).

Definition path_removed (p : string) (w : world) : world :=
  mkWorld (trace w) (filter (fun q => negb (String.eqb q p)) (paths w))
          (timers w).

Definition path_exists (p : string) (w : world) : bool :=
  existsb (String.eqb p) (paths w).

(** (void)unlink(path) *)
Definition sys_unlink (p : string) (w : world) : world :=
  path_removed p (emit (Unlink p) w).

(** timer_create and timer_settime on [epoll_timerid]: a call that fails (a
    negative result) leaves the timers as they were.  The signal handler
    epoll_timer_handler, which disarms the timer once opt_do_run is cleared,
    runs asynchronously and is left out. *)
Definition sys_timer_create (signo res : Z) (w : world) : world :=
  let w := emit (TimerCreate signo res) w in
  if res <? 0 then w else set_timers (false :: timers w) w.

Definition sys_timer_settime (nsec res : Z) (w : world) : world :=
  let w := emit (TimerSettime nsec res) w in
  if res <? 0 then w
  else match timers w with
       | [] => w
       | _ :: ts => set_timers (true :: ts) w
       end.

(** timer_delete on [epoll_timerid].  The call has one way to fail, EINVAL:
    its argument names no timer.  So whatever it returns, once it has
    returned [epoll_timerid] names no timer: the call deleted it, or there
    was none.  The result is still the caller's to test. *)
Definition sys_timer_delete (res : Z) (w : world) : world :=
  let w := emit (TimerDelete res) w in
  set_timers (tl (timers w)) w.

(** the number of armed timers *)
Definition armed (w : world) : nat := count_occ bool_dec (timers w) true.

(** ** The options: the file's static variables *)

Record options : Type := mkOptions {
  opt_epoll_domain : Z;
  opt_epoll_port : Z;
  max_servers : Z
}.

(** DEFAULT_EPOLL_PORT is defined in stress-ng.h; the initial options take it
    as an argument. *)
Definition initial_options (default_epoll_port : Z) : options :=
  mkOptions AF_UNIX default_epoll_port 1.

(** ** The domain registry *)

Record domain_t : Type := mkDomain {
  name : string;
  domain : Z;
  dom_max_servers : Z
}.

(** The table without its terminating { NULL, -1, 0 } entry. *)
Definition domains : list domain_t :=
  [ mkDomain "ipv4" AF_INET 4;
    mkDomain "ipv6" AF_INET6 4;
    mkDomain "unix" AF_UNIX 1 ].

(** First loop of stress_set_epoll_domain: the first entry whose name
    compares equal.  A [string] stands for the characters of a C string before
    its terminator, so strcmp(a, b) == 0 is [String.eqb a b]. *)
Fixpoint find_domain (nm : string) (tbl : list domain_t) : option domain_t :=
  match tbl with
  | [] => None
  | d :: tbl' => if String.eqb nm (name d) then Some d else find_domain nm tbl'
  end.

(** Second loop: one " %s" per entry. *)
Definition list_domains (tbl : list domain_t) : list event :=
  map (fun d => Stderr (String.append " " (name d))) tbl.

Definition stress_set_epoll_domain (nm : string) (o : options)
  : Z * options * list event :=
  match find_domain nm domains with
  | Some d =>
      (0, mkOptions (domain d) (opt_epoll_port o) (dom_max_servers d), [])
  | None =>
      (-1, o,
       [Stderr "socket domain must be one of:"]
         ++ list_domains domains
         ++ [Stderr (String (ascii_of_nat 10) EmptyString)])
  end.

(** The domains the registry can select; the static starts at AF_UNIX with one
    server, which is the registry's "unix" entry. *)
Definition registered (o : options) : Prop :=
  exists d, In d domains /\
            opt_epoll_domain o = domain d /\ max_servers o = dom_max_servers d.

(** ** The socket path of the unix domain *)

(** "%d" and "%" PRIu32 *)
Definition decimal (z : Z) : string := NilZero.string_of_int (Z.to_int z).

(** snprintf(addr.sun_path, sizeof(addr.sun_path), "/tmp/stress-ng-%d-%" PRIu32,
    ppid, instance); the text is at most 37 characters long and fits the 108
    bytes of sun_path. *)
Definition sun_path (ppid instance : Z) : string :=
  ("/tmp/stress-ng-" ++ decimal ppid ++ "-" ++ decimal instance)%string.

(** ** The client: epoll_client *)

(** What the environment answers during one pass over the loop body, from the
    [retry:] label on.  Answers to calls that the pass does not reach are
    ignored. *)
Record attempt : Type := mkAttempt {
  do_run_retry : bool;     (* opt_do_run, as read at retry: *)
  socket_res : Z;          (* socket() *)
  timer_create_res : Z;    (* timer_create() *)
  timer_settime_res : Z;   (* timer_settime() *)
  connect_res : Z;         (* connect() *)
  connect_errno : Z;       (* errno after connect() *)
  timer_delete_res : Z;    (* timer_delete() *)
  send_res : Z;            (* send() *)
  do_run_cond : bool       (* opt_do_run, as read by the loop condition *)
}.

Record client_state : Type := mkClient {
  counter : Z;             (* *counter, uint64_t *)
  port_counter : Z;        (* int *)
  connect_timeouts : Z;    (* uint64_t *)
  retries : Z;             (* int *)
  port : Z;                (* int *)
  cw : world
}.

Definition with_world (f : world -> world) (s : client_state) : client_state :=
  mkClient (counter s) (port_counter s) (connect_timeouts s) (retries s)
           (port s) (f (cw s)).

Definition with_retries (r : Z) (s : client_state) : client_state :=
  mkClient (counter s) (port_counter s) (connect_timeouts s) r (port s) (cw s).

Definition with_counter (c : Z) (s : client_state) : client_state :=
  mkClient c (port_counter s) (connect_timeouts s) (retries s) (port s) (cw s).

Definition with_connect_timeouts (c : Z) (s : client_state) : client_state :=
  mkClient (counter s) (port_counter s) c (retries s) (port s) (cw s).

(** Where control goes after a pass over the loop body. *)
Inductive control : Type :=
| Retry              (* goto retry *)
| Again              (* the loop condition holds: next iteration *)
| Leave              (* break, or the loop condition fails *)
| Return (rc : Z).   (* return from inside the loop *)

(** How a run of a loop over a finite oracle ends. *)
Inductive outcome (S : Type) : Type :=
| Returned (rc : Z) (s : S)   (* the function returned (or the process exited) *)
| Pending (s : S).            (* the oracle is used up, the loop still runs *)

Arguments Returned {S} rc s.
Arguments Pending {S} s.

Section Client.

Variable o : options.
Variables (instance max_ops ppid : Z).

(** The top of the do-body, before [retry:]. *)
Definition loop_head (s : client_state) : client_state :=
  let base := sint32 (opt_epoll_port o + port_counter s) in
  let offs := uint32 (uint32 (max_servers o) * instance) in
  mkClient (counter s)
           (Z.rem (sint32 (port_counter s + 1)) (max_servers o))
           (connect_timeouts s)
           0
           (sint32 (uint32 (uint32 base + offs)))
           (cw s).

(** The switch on opt_epoll_domain that builds the address for connect. *)
Definition connect_addr (p : Z) : option endpoint :=
  if opt_epoll_domain o =? AF_INET
  then Some (SockaddrIn INADDR_LOOPBACK (htons p))
  else if opt_epoll_domain o =? AF_INET6
  then Some (SockaddrIn6 false (htons p))
  else if opt_epoll_domain o =? AF_UNIX
  then Some (SockaddrUn (sun_path ppid instance))
  else None.

(** The switch on errno after a failed connect. *)
Definition connect_failed (errno : Z) (s : client_state) : client_state :=
  if errno =? EINTR
  then with_connect_timeouts (uint64 (connect_timeouts s + 1)) s
  else if (errno =? ECONNREFUSED) || (errno =? ENOENT)
  then s
  else with_world (emit (PrDbg "connect failed")) s.

(** memset(buf, 'A' + counter % 26, sizeof(buf)): 4096 bytes, each the
    value converted to unsigned char *)
Definition payload (c : Z) : list Z :=
  repeat ((65 + c mod 26) mod 256) 4096.

(** One pass over the loop body, from [retry:] to the loop condition. *)
Definition client_attempt (a : attempt) (s : client_state)
  : control * client_state :=
  if negb (do_run_retry a) then (Leave, s) else
  let fd := socket_res a in
  let s := with_world (emit (Socket (opt_epoll_domain o) fd)) s in
  if fd <? 0 then
    (Return (-1), with_world (emit (PrFailedDbg "socket")) s)
  else
  let s := with_world (sys_timer_create SIGRTMIN (timer_create_res a)) s in
  if timer_create_res a <? 0 then
    (Return (-1),
     with_world (emit (Close fd))
       (with_world (emit (PrFailedErr "timer_create")) s))
  else
  let s :=
    with_world (sys_timer_settime 250000000 (timer_settime_res a)) s in
  if timer_settime_res a <? 0 then
    (Return (-1),
     with_world (emit (Close fd))
       (with_world (emit (PrFailedErr "timer_settime")) s))
  else
  match connect_addr (port s) with
  | None =>
    (Return (-1),
     with_world (emit (Close fd))
       (with_world (emit (PrFailedErr "unknown domain")) s))
  | Some addr =>
    let ret := connect_res a in
    let s := with_world (emit (Connect fd addr ret)) s in
    let s := with_world (sys_timer_delete (timer_delete_res a)) s in
    if timer_delete_res a <? 0 then
      (Return (-1),
       with_world (emit (Close fd))
         (with_world (emit (PrFailedErr "timer_delete")) s))
    else if ret <? 0 then
      let s := connect_failed (connect_errno a) s in
      let s := with_world (emit (Close fd)) s in
      let s := with_world (emit (Usleep 1000)) s in
      let s := with_retries (retries s + 1) s in
      if retries s >? 100 then
        (Return (-1), with_world (emit (PrFailedDbg "connect")) s)
      else (Retry, s)
    else
      let s := with_retries 0 s in
      let s :=
        with_world (emit (Send fd (payload (counter s)) (send_res a))) s in
      if send_res a <? 0 then
        (Leave,
         with_world (emit (PrFailedDbg "send"))
           (with_world (emit (Close fd)) s))
      else
      let s := with_world (emit (Close fd)) s in
      let s := with_world (emit SchedYield) s in
      let s := with_counter (uint64 (counter s + 1)) s in
      if do_run_cond a && ((max_ops =? 0) || (counter s <? max_ops))
      then (Again, s) else (Leave, s)
  end.

(** The code after the loop. *)
Definition client_epilogue (s : client_state) : client_state :=
  let s :=
    if opt_epoll_domain o =? AF_UNIX
    then with_world (sys_unlink (sun_path ppid instance)) s else s in
  if connect_timeouts s =? 0 then s
  else with_world (emit (PrDbg "connect timeouts")) s.

(** The do-while loop.  [fresh] tells whether the pass starts a new
    iteration (true) or comes from [goto retry] (false). *)
Fixpoint client_loop (fresh : bool) (oracle : list attempt)
         (s : client_state) : outcome client_state :=
  match oracle with
  | [] => Pending s
  | a :: oracle' =>
      let s := if fresh then loop_head s else s in
      match client_attempt a s with
      | (Retry, s') => client_loop false oracle' s'
      | (Again, s') => client_loop true oracle' s'
      | (Leave, s') => Returned EXIT_SUCCESS (client_epilogue s')
      | (Return rc, s') => Returned rc s'
      end
  end.

(** epoll_client: [count] is the value of *counter on entry, [sigaction_res]
    the result of the sigaction call. *)
Definition epoll_client (count : Z) (sigaction_res : Z)
           (oracle : list attempt) (w : world) : outcome client_state :=
  let s := mkClient count 0 0 0 0 w in
  let s := with_world (emit (Sigaction SIGRTMIN sigaction_res)) s in
  if sigaction_res <? 0 then
    Returned (-1) (with_world (emit (PrFailedErr "sigaction")) s)
  else client_loop true oracle s.

End Client.

(** ** The server: epoll_server and its helpers *)

(** epoll_set_fd_nonblock: [getfl] and [setfl] are the results of the two
    fcntl calls. *)
Definition epoll_set_fd_nonblock (fd getfl setfl : Z) (w : world)
  : Z * world :=
  let w := emit (FcntlGetfl fd getfl) w in
  if getfl <? 0 then (-1, w) else
  let w := emit (FcntlSetfl fd setfl) w in
  if setfl <? 0 then (-1, w) else (0, w).

(** epoll_ctl_add: [res] is the result of epoll_ctl. *)
Definition epoll_ctl_add (efd fd res : Z) (w : world) : Z * world :=
  let w := emit (EpollCtlAdd efd fd res) w in
  if res <? 0 then (-1, w) else (0, w).

(** The answer to one recv call. *)
Record recv_answer : Type := mkRecv {
  recv_res : Z;
  recv_errno : Z
}.

(** epoll_recv_data: reads until recv reports an error or the end of the
    stream.  [None]: the oracle is used up and the loop still runs. *)
Fixpoint epoll_recv_data (fd : Z) (oracle : list recv_answer) (w : world)
  : option world :=
  match oracle with
  | [] => None
  | r :: oracle' =>
      let n := recv_res r in
      let w := emit (Recv fd n) w in
      if n =? -1 then
        Some (if negb (recv_errno r =? EAGAIN) then emit (Close fd) w else w)
      else if n =? 0 then Some (emit (Close fd) w)
      else epoll_recv_data fd oracle' w
  end.

(** The answers to one round of the accept loop. *)
Record accept_answer : Type := mkAccept {
  accept_res : Z;      (* accept() *)
  accept_errno : Z;    (* errno after accept() *)
  getfl_res : Z;       (* fcntl(fd, F_GETFL, 0) *)
  setfl_res : Z;       (* fcntl(fd, F_SETFL, ...) *)
  ctl_res : Z          (* epoll_ctl(efd, EPOLL_CTL_ADD, fd, ...) *)
}.

(** epoll_notification: accepts until accept fails.  [None]: the oracle is
    used up and the loop still runs. *)
Fixpoint epoll_notification (efd sfd : Z) (oracle : list accept_answer)
         (w : world) : option (Z * world) :=
  match oracle with
  | [] => None
  | a :: oracle' =>
      let fd := accept_res a in
      let w := emit (Accept sfd fd) w in
      if fd <? 0 then
        if (accept_errno a =? EAGAIN) || (accept_errno a =? EWOULDBLOCK)
        then Some (0, w)
        else if (accept_errno a =? EMFILE) || (accept_errno a =? ENFILE)
        then Some (0, w)
        else Some (-1, emit (PrFailedErr "accept") w)
      else
        let (r, w) := epoll_set_fd_nonblock fd (getfl_res a) (setfl_res a) w in
        if r <? 0 then
          Some (-1, emit (Close fd)
                      (emit (PrFailedErr "setting socket to non-blocking") w))
        else
        let (r, w) := epoll_ctl_add efd fd (ctl_res a) w in
        if r <? 0 then
          Some (-1, emit (Close fd) (emit (PrFailedErr "epoll ctl add") w))
        else epoll_notification efd sfd oracle' w
  end.

(** One entry of the events array as epoll_wait fills it, together with the
    answers to the calls that handling the entry makes. *)
Record ready : Type := mkReady {
  ev_events : Z;                      (* events[i].events *)
  ev_fd : Z;                          (* events[i].data.fd *)
  ev_accepts : list accept_answer;
  ev_recvs : list recv_answer
}.

(** An entry left as memset wrote it. *)
Definition zero_ready : ready := mkReady 0 0 [] [].

(** The array of MAX_EPOLL_EVENTS entries after memset and epoll_wait. *)
Definition events_array (evs : list ready) : list ready :=
  firstn (Z.to_nat MAX_EPOLL_EVENTS)
         (evs ++ repeat zero_ready (Z.to_nat MAX_EPOLL_EVENTS)).

(** The for loop over the reported events.  [None]: an oracle of a nested
    loop is used up. *)
Fixpoint handle_events (efd sfd : Z) (evs : list ready) (w : world)
  : option world :=
  match evs with
  | [] => Some w
  | e :: evs' =>
      if negb (Z.land (ev_events e) EPOLLERR =? 0)
         || negb (Z.land (ev_events e) EPOLLHUP =? 0)
         || (Z.land (ev_events e) EPOLLIN =? 0)
      then handle_events efd sfd evs' (emit (Close (ev_fd e)) w)
      else if sfd =? ev_fd e then
        match epoll_notification efd sfd (ev_accepts e) w with
        | None => None
        | Some (r, w) => if r <? 0 then Some w else handle_events efd sfd evs' w
        end
      else
        match epoll_recv_data (ev_fd e) (ev_recvs e) w with
        | None => None
        | Some w => handle_events efd sfd evs' w
        end
  end.

(** The answers to the calls made before the event loop. *)
Record setup : Type := mkSetup {
  su_sigaction : Z;
  su_socket : Z;
  su_setsockopt : Z;
  su_bind : Z;
  su_getfl : Z;
  su_setfl : Z;
  su_listen : Z;
  su_epoll_create1 : Z;
  su_epoll_ctl : Z;
  su_calloc : bool       (* false: calloc returned NULL *)
}.

(** The answers during one iteration of the event loop. *)
Record pass : Type := mkPass {
  wait_res : Z;                (* epoll_wait() *)
  wait_errno : Z;              (* errno after epoll_wait() *)
  wait_events : list ready;    (* what epoll_wait wrote to the array *)
  wait_do_run : bool;          (* opt_do_run, as read by the loop condition *)
  wait_counter : Z             (* *counter, as read by the loop condition *)
}.

Section Server.

Variable o : options.
Variables (child instance max_ops ppid : Z).
Variable parent : Z.      (* getppid() in the server process *)

(** The code from the [die:] label on. *)
Definition die (rc : Z) (w : world) : outcome world :=
  let w := if opt_epoll_domain o =? AF_UNIX
           then sys_unlink (sun_path ppid instance) w else w in
  Returned rc (emit Free w).

(** The code from the [die_close:] label on. *)
Definition die_close (efd sfd rc : Z) (w : world) : outcome world :=
  let w := if negb (efd =? -1) then emit (Close efd) w else w in
  let w := if negb (sfd =? -1) then emit (Close sfd) w else w in
  die rc w.

(** The do-while loop of the server. *)
Fixpoint server_loop (efd sfd : Z) (oracle : list pass) (w : world)
  : outcome world :=
  match oracle with
  | [] => Pending w
  | p :: oracle' =>
      let n := wait_res p in
      let w := emit (EpollWait efd n) w in
      if n <? 0 then
        if negb (wait_errno p =? EINTR) then
          die_close efd sfd EXIT_FAILURE (emit (PrFailedErr "epoll_wait") w)
        else die_close efd sfd EXIT_SUCCESS w
      else
        match handle_events efd sfd
                (firstn (Z.to_nat n) (events_array (wait_events p))) w with
        | None => Pending w
        | Some w =>
            if wait_do_run p
               && ((max_ops =? 0) || (wait_counter p <? max_ops))
            then server_loop efd sfd oracle' w
            else die_close efd sfd EXIT_SUCCESS w
        end
  end.

(** The switch on opt_epoll_domain that builds the address for bind. *)
Definition bind_addr (p : Z) : option endpoint :=
  if opt_epoll_domain o =? AF_INET
  then Some (SockaddrIn INADDR_ANY (htons p))
  else if opt_epoll_domain o =? AF_INET6
  then Some (SockaddrIn6 true (htons p))
  else if opt_epoll_domain o =? AF_UNIX
  then Some (SockaddrUn (sun_path ppid instance))
  else None.

(** int port = opt_epoll_port + child + (max_servers * instance) *)
Definition server_port : Z :=
  let base := sint32 (opt_epoll_port o + child) in
  let offs := uint32 (uint32 (max_servers o) * instance) in
  sint32 (uint32 (uint32 base + offs)).

(** epoll_server; the function does not return, [Returned rc] is exit(rc). *)
Definition epoll_server (su : setup) (oracle : list pass) (w : world)
  : outcome world :=
  let efd := -1 in
  let w := emit (Sigaction SIGALRM (su_sigaction su)) w in
  if su_sigaction su <? 0 then
    die EXIT_FAILURE (emit (PrFailedErr "sigaction") w)
  else
  let sfd := su_socket su in
  let w := emit (Socket (opt_epoll_domain o) sfd) w in
  if sfd <? 0 then die EXIT_FAILURE (emit (PrFailedErr "socket") w) else
  let w := emit (Setsockopt sfd (su_setsockopt su)) w in
  if su_setsockopt su <? 0 then
    die_close efd sfd EXIT_FAILURE (emit (PrFailedErr "setsockopt") w)
  else
  match bind_addr server_port with
  | None =>
      Returned EXIT_FAILURE
               (emit (Kill parent SIGALRM)
                  (emit (PrFailedErr "unknown domain") w))
  | Some addr =>
      let w := emit (Bind sfd addr (su_bind su)) w in
      if su_bind su <? 0 then
        die_close efd sfd EXIT_FAILURE (emit (PrFailedErr "bind") w)
      else
      let w := match addr with
               | SockaddrUn p => path_created p w
               | _ => w
               end in
      let (r, w) :=
        epoll_set_fd_nonblock sfd (su_getfl su) (su_setfl su) w in
      if r <? 0 then
        die_close efd sfd EXIT_FAILURE
                  (emit (PrFailedErr "setting socket to non-blocking") w)
      else
      let w := emit (Listen sfd (su_listen su)) w in
      if su_listen su <? 0 then
        die_close efd sfd EXIT_FAILURE (emit (PrFailedErr "listen") w)
      else
      let efd := su_epoll_create1 su in
      let w := emit (EpollCreate1 efd) w in
      if efd <? 0 then
        die_close efd sfd EXIT_FAILURE (emit (PrFailedErr "epoll_create1") w)
      else
      let (r, w) := epoll_ctl_add efd sfd (su_epoll_ctl su) w in
      if r <? 0 then
        die_close efd sfd EXIT_FAILURE (emit (PrFailedErr "epoll ctl add") w)
      else
      let w := emit (Calloc (su_calloc su)) w in
      if negb (su_calloc su) then
        die_close efd sfd EXIT_FAILURE (emit (PrFailedErr "epoll ctl add") w)
      else server_loop efd sfd oracle w
  end.

End Server.

(** ** The orchestrator: stress_epoll *)

Section Orchestrator.

Variable o : options.
Variables (instance max_ops ppid : Z).
Variable fork_res : Z -> Z.       (* fork() for child i, seen by the parent *)
Variable waitpid_res : Z -> Z.    (* waitpid() for pids[i] *)

(** epoll_spawn in the calling process: the branch pid == 0 is the child,
    which runs epoll_server and exits there. *)
Definition epoll_spawn (child : Z) (w : world) : Z * world :=
  let pid := fork_res child in
  let w := emit (Fork child pid) w in
  if pid <? 0 then (-1, w) else (pid, w).

(** The first for loop, [n] iterations from index [i] on.  The result tells
    whether every fork succeeded, and gives the entries of [pids] written so
    far; the other entries are 0 from memset. *)
Fixpoint spawn_loop (n : nat) (i : Z) (pids : list Z) (w : world)
  : bool * list Z * world :=
  match n with
  | O => (true, pids, w)
  | S n' =>
      let (pid, w) := epoll_spawn i w in
      let pids := pids ++ [pid] in
      if pid <? 0 then (false, pids, emit (PrFailedDbg "fork") w)
      else spawn_loop n' (i + 1) pids w
  end.

(** The loop after [reap:]. *)
Fixpoint reap_loop (n : nat) (i : Z) (pids : list Z) (w : world) : world :=
  match n with
  | O => w
  | S n' =>
      let pid := nth (Z.to_nat i) pids 0 in
      let w :=
        if pid >? 0 then
          let w := emit (Kill pid SIGKILL) w in
          let w := emit (Waitpid pid (waitpid_res i)) w in
          if waitpid_res i <? 0 then emit (PrFailedDbg "waitpid") w else w
        else w in
      reap_loop n' (i + 1) pids w
  end.

(** stress_epoll: [count] is the value of *counter on entry; the result
    carries the value on return. *)
Definition stress_epoll (count : Z) (sigaction_res : Z)
           (oracle : list attempt) (w : world) : outcome (Z * world) :=
  let rc := EXIT_SUCCESS in
  let w := emit (PrDbg (if max_servers o =? 1 then "using socket port"
                        else "using socket ports")) w in
  let servers := Z.to_nat (max_servers o) in
  match spawn_loop servers 0 [] w with
  | (false, pids, w) => Returned rc (count, reap_loop servers 0 pids w)
  | (true, pids, w) =>
      match epoll_client o instance max_ops ppid count sigaction_res
                         oracle w with
      | Pending s => Pending (counter s, cw s)
      | Returned _ s =>
          Returned rc (counter s, reap_loop servers 0 pids (cw s))
      end
  end.

End Orchestrator.

(** * The vocabulary of the properties *)

(** A world without events, socket paths or timers. *)
Definition no_world : world := mkWorld [] [] [].

(** The text written to stderr for a name that is not in the table. *)
Definition domain_listing : list event :=
  [ Stderr "socket domain must be one of:";
    Stderr " ipv4"; Stderr " ipv6"; Stderr " unix";
    Stderr (String (ascii_of_nat 10) EmptyString) ].

(** The values of type int. *)
Definition int_range (z : Z) : Prop := - 2 ^ 31 <= z < 2 ^ 31.

(** The pass gets as far as the connect call. *)
Definition reaches_connect (a : attempt) : bool :=
  do_run_retry a && (0 <=? socket_res a) && (0 <=? timer_create_res a)
  && (0 <=? timer_settime_res a).

(** The three classes of connect failures that the switch on errno names. *)
Definition transient (errno : Z) : bool :=
  (errno =? EINTR) || (errno =? ECONNREFUSED) || (errno =? ENOENT).

(** connect fails with a transient error, every other call succeeds. *)
Definition fails_transiently (a : attempt) : bool :=
  reaches_connect a && (0 <=? timer_delete_res a)
  && (connect_res a <? 0) && transient (connect_errno a).

(** connect succeeds, and so does every call before send. *)
Definition connects (a : attempt) : bool :=
  reaches_connect a && (0 <=? timer_delete_res a) && (0 <=? connect_res a).

(** The whole cycle succeeds. *)
Definition succeeds (a : attempt) : bool :=
  connects a && (0 <=? send_res a).

(** Kinds of events. *)
Definition is_connect (e : event) : bool :=
  match e with Connect _ _ _ => true | _ => false end.

Definition is_send (e : event) : bool :=
  match e with Send _ _ _ => true | _ => false end.

Definition is_close (e : event) : bool :=
  match e with Close _ => true | _ => false end.

(** How many events of a trace satisfy [p]. *)
Definition count (p : event -> bool) (tr : list event) : nat :=
  List.length (filter p tr).

(** The buffers handed to send, in order. *)
Fixpoint sent (tr : list event) : list (list Z) :=
  match tr with
  | [] => []
  | Send _ buf _ :: tr' => buf :: sent tr'
  | _ :: tr' => sent tr'
  end.

Definition is_timer_call (e : event) : bool :=
  match e with
  | TimerCreate _ _ | TimerSettime _ _ | TimerDelete _ => true
  | _ => false
  end.

(** The result of a run, if it has one, and the state it ends in. *)
Definition result {S : Type} (r : outcome S) : option Z :=
  match r with
  | Returned rc _ => Some rc
  | Pending _ => None
  end.

Definition final {S : Type} (r : outcome S) : S :=
  match r with
  | Returned _ s => s
  | Pending s => s
  end.

(** The [n] counter values from [c] on. *)
Definition counts_from (c : Z) (n : nat) : list Z :=
  map (fun i => c + Z.of_nat i) (seq 0 n).

(** The events of a pass up to the deletion of the timer. *)
Definition connect_events (o : options) (a : attempt) (addr : endpoint)
  : list event :=
  [ Socket (opt_epoll_domain o) (socket_res a);
    TimerCreate SIGRTMIN (timer_create_res a);
    TimerSettime 250000000 (timer_settime_res a);
    Connect (socket_res a) addr (connect_res a);
    TimerDelete (timer_delete_res a) ].

(** connect is refused, every other call succeeds. *)
Definition refused : attempt := mkAttempt true 3 0 0 (-1) ECONNREFUSED 0 0 true.

(** A complete cycle: connect succeeds and send takes the 4096 bytes. *)
Definition complete : attempt := mkAttempt true 3 0 0 0 0 0 4096 true.

(** connect succeeds, send fails. *)
Definition send_fails : attempt := mkAttempt true 3 0 0 0 0 0 (-1) true.

(** The state in which epoll_client enters its loop, with a zero counter. *)
Definition client_start : client_state := mkClient 0 0 0 0 0 no_world.

Definition is_wait (e : event) : bool :=
  match e with EpollWait _ _ => true | _ => false end.

Definition is_log (e : event) : bool :=
  match e with
  | Stderr _ | PrDbg _ | PrFailedDbg _ | PrFailedErr _ => true
  | _ => false
  end.

(** The world after the events [es], in order. *)
Definition emit_all (es : list event) (w : world) : world :=
  mkWorld (trace w ++ es) (paths w) (timers w).

(** A round of the accept loop that takes a connection and registers it. *)
Definition accepted (a : accept_answer) : bool :=
  (0 <=? accept_res a) && (0 <=? getfl_res a) && (0 <=? setfl_res a)
  && (0 <=? ctl_res a).

(** The calls of such a round. *)
Definition accepted_events (efd sfd : Z) (a : accept_answer) : list event :=
  [ Accept sfd (accept_res a);
    FcntlGetfl (accept_res a) (getfl_res a);
    FcntlSetfl (accept_res a) (setfl_res a);
    EpollCtlAdd efd (accept_res a) (ctl_res a) ].

(** An event that is readable and carries neither EPOLLERR nor EPOLLHUP. *)
Definition readable (e : ready) : bool :=
  (Z.land (ev_events e) EPOLLERR =? 0) && (Z.land (ev_events e) EPOLLHUP =? 0)
  && negb (Z.land (ev_events e) EPOLLIN =? 0).

(** The calls from [die_close:] on. *)
Definition cleanup_events (o : options) (instance ppid efd sfd : Z)
  : list event :=
  (if efd =? -1 then [] else [Close efd])
    ++ (if sfd =? -1 then [] else [Close sfd])
    ++ (if opt_epoll_domain o =? AF_UNIX
        then [Unlink (sun_path ppid instance)] else [])
    ++ [Free].

(** epoll_wait reports no event and opt_do_run is set. *)
Definition quiet : pass := mkPass 0 0 [] true 0.

(** epoll_wait is interrupted by a signal and opt_do_run is set. *)
Definition interrupted : pass := mkPass (-1) EINTR [] true 0.

(** ** Vocabulary of the further properties *)

(** The options after one call of stress_set_epoll_domain per name, in
    order. *)
Definition apply_settings (names : list string) (o : options) : options :=
  fold_left (fun o nm => snd (fst (stress_set_epoll_domain nm o))) names o.

(** Whether a text has a minus sign in it. *)
Fixpoint has_dash (s : string) : bool :=
  match s with
  | EmptyString => false
  | String c s' => Ascii.eqb c "-" || has_dash s'
  end.

(** The addresses handed to connect, in order. *)
Fixpoint targets (tr : list event) : list endpoint :=
  match tr with
  | [] => []
  | Connect _ addr _ :: tr' => addr :: targets tr'
  | _ :: tr' => targets tr'
  end.

(** The socket paths other than [p]. *)
Definition paths_without (p : string) (ps : list string) : list string :=
  filter (fun q => negb (String.eqb q p)) ps.

(** recv delivered data: neither the end of the stream nor an error. *)
Definition more_data (r : recv_answer) : bool :=
  negb (recv_res r =? -1) && negb (recv_res r =? 0).

(** An accept call that returned a descriptor. *)
Definition is_accepted (e : event) : bool :=
  match e with Accept _ r => 0 <=? r | _ => false end.

(** An epoll_ctl call that registered a descriptor. *)
Definition is_registered (e : event) : bool :=
  match e with EpollCtlAdd _ _ r => 0 <=? r | _ => false end.

(** Events other than send and connect. *)
Definition passive (e : event) : bool := negb (is_send e) && negb (is_connect e).

(** [w'] is [w] after more events, all of them satisfying [p]; socket paths
    and timers are not compared. *)
Definition adds (p : event -> bool) (w w' : world) : Prop :=
  exists es, trace w' = trace w ++ es /\ forallb p es = true.

(** Every call before the event loop succeeds. *)
Definition setup_ok (su : setup) : bool :=
  (0 <=? su_sigaction su) && (0 <=? su_socket su) && (0 <=? su_setsockopt su)
  && (0 <=? su_bind su) && (0 <=? su_getfl su) && (0 <=? su_setfl su)
  && (0 <=? su_listen su) && (0 <=? su_epoll_create1 su)
  && (0 <=? su_epoll_ctl su) && su_calloc su.

(** The loop condition of the server, as the pass [p] reads it. *)
Definition keeps_running (max_ops : Z) (p : pass) : bool :=
  wait_do_run p && ((max_ops =? 0) || (wait_counter p <? max_ops)).

(** The fork calls for the children [i], [i + 1], ... ([n] of them). *)
Definition fork_events (fork_res : Z -> Z) (i : Z) (n : nat) : list event :=
  map (fun j => Fork j (fork_res j)) (counts_from i n).

(** What the reap loop does for the entry [pid] of index [i]. *)
Definition reap_events (waitpid_res : Z -> Z) (pid i : Z) : list event :=
  if pid >? 0
  then [Kill pid SIGKILL; Waitpid pid (waitpid_res i)]
         ++ (if waitpid_res i <? 0 then [PrFailedDbg "waitpid"] else [])
  else [].

(** The reaping of the children [i], [i + 1], ... ([n] of them), each under
    the pid that fork returned for it. *)
Definition reaps (fork_res waitpid_res : Z -> Z) (i : Z) (n : nat)
  : list event :=
  flat_map (fun j => reap_events waitpid_res (fork_res j) j) (counts_from i n).

(** The first message of stress_epoll. *)
Definition port_message (o : options) : event :=
  PrDbg (if max_servers o =? 1 then "using socket port"
         else "using socket ports").

(** The values of type uint16_t: the port numbers. *)
Definition port_range (z : Z) : Prop := 0 <= z < 2 ^ 16.

(** An event that makes the server close the descriptor: EPOLLERR or EPOLLHUP
    is set, or EPOLLIN is not. *)
Definition broken (e : ready) : bool :=
  negb (Z.land (ev_events e) EPOLLERR =? 0)
  || negb (Z.land (ev_events e) EPOLLHUP =? 0)
  || (Z.land (ev_events e) EPOLLIN =? 0).

(** The events of an attempt whose connect to [addr] fails: the calls up to
    the deletion of the timer, the close of the socket of this attempt, and
    the pause. *)
Definition failed_attempt_events (o : options) (addr : endpoint)
           (a : attempt) : list event :=
  connect_events o a addr ++ [Close (socket_res a); Usleep 1000].

(** The value of [efd] when epoll_server gets to [die_close:] after sigaction
    and socket have succeeded: what epoll_create1 returned once the setup got
    as far as calling it, and the initial -1 before that. *)
Definition exit_efd (su : setup) : Z :=
  if (0 <=? su_setsockopt su) && (0 <=? su_bind su) && (0 <=? su_getfl su)
     && (0 <=? su_setfl su) && (0 <=? su_listen su)
  then su_epoll_create1 su
  else -1.

(** * Properties *)

(** ** Fixed-width arithmetic *)

Lemma sint32_small (z : Z) : - 2 ^ 31 <= z < 2 ^ 31 -> sint32 z = z.
Proof.
  intros Hz. unfold sint32.
  rewrite Z.mod_small; lia.
Qed.

Lemma sint32_congr (a b : Z) :
  a mod 2 ^ 32 = b mod 2 ^ 32 -> sint32 a = sint32 b.
Proof.
  intros Hab. unfold sint32.
  rewrite <- (Z.add_mod_idemp_l a), <- (Z.add_mod_idemp_l b) by lia.
  now rewrite Hab.
Qed.

(** The expression of both port computations, without the intermediate
    conversions. *)
Lemma sint32_mod (x : Z) : sint32 x mod 2 ^ 32 = x mod 2 ^ 32.
Proof.
  unfold sint32.
  rewrite Zminus_mod_idemp_l.
  f_equal. lia.
Qed.

Lemma port_expression (x m i : Z) :
  sint32 (uint32 (uint32 (sint32 x) + uint32 (uint32 m * i)))
  = sint32 (x + m * i).
Proof.
  apply sint32_congr. unfold uint32.
  rewrite Z.mod_mod by lia.
  rewrite <- Z.add_mod by lia.
  rewrite (Z.add_mod (sint32 x)), (Z.add_mod x) by lia.
  now rewrite sint32_mod, Z.mul_mod_idemp_l by lia.
Qed.

Lemma uint64_small (z : Z) : 0 <= z < 2 ^ 64 -> uint64 z = z.
Proof. intros Hz. unfold uint64. apply Z.mod_small; lia. Qed.

(** ** The domain registry *)

Lemma find_domain_unknown (nm : string) :
  nm <> "ipv4" -> nm <> "ipv6" -> nm <> "unix" ->
  find_domain nm domains = None.
Proof.
  intros H4 H6 Hu. cbn.
  apply String.eqb_neq in H4, H6, Hu.
  now rewrite H4, H6, Hu.
Qed.

(** The setter keeps the options among those of the table. *)
Lemma initial_options_registered (p : Z) : registered (initial_options p).
Proof.
  exists (mkDomain "unix" AF_UNIX 1). cbn. intuition.
Qed.

Lemma find_domain_In (nm : string) (tbl : list domain_t) (d : domain_t) :
  find_domain nm tbl = Some d -> In d tbl.
Proof.
  induction tbl as [|e tbl IH]; cbn; [discriminate|].
  destruct (String.eqb nm (name e)).
  - intros [= ->]. now left.
  - intros H. right. now apply IH.
Qed.

Lemma set_domain_registered (nm : string) (o : options) :
  registered o -> registered (snd (fst (stress_set_epoll_domain nm o))).
Proof.
  intros Ho. unfold stress_set_epoll_domain.
  destruct (find_domain nm domains) as [d|] eqn:Hd; cbn; [|exact Ho].
  exists d. split; [exact (find_domain_In nm domains d Hd)|].
  split; reflexivity.
Qed.

Lemma registered_cases (o : options) :
  registered o ->
  (opt_epoll_domain o = AF_INET /\ max_servers o = 4) \/
  (opt_epoll_domain o = AF_INET6 /\ max_servers o = 4) \/
  (opt_epoll_domain o = AF_UNIX /\ max_servers o = 1).
Proof.
  intros (d & Hin & Hd & Hm). cbn in Hin.
  destruct Hin as [<-|[<-|[<-|[]]]]; cbn in Hd, Hm; auto.
Qed.

(** C9, as the code has it: stress_set_epoll_domain resolves the names ipv4,
    ipv6 and unix to their address family and server count (4, 4 and 1) and
    returns 0, leaving the port alone; for every other name it writes the list
    of the three names to stderr, returns -1 and leaves the options as they
    were. *)
Theorem set_epoll_domain_registry (o : options) :
  stress_set_epoll_domain "ipv4" o
  = (0, mkOptions AF_INET (opt_epoll_port o) 4, [])
  /\ stress_set_epoll_domain "ipv6" o
     = (0, mkOptions AF_INET6 (opt_epoll_port o) 4, [])
  /\ stress_set_epoll_domain "unix" o
     = (0, mkOptions AF_UNIX (opt_epoll_port o) 1, [])
  /\ forall nm : string,
       nm <> "ipv4" -> nm <> "ipv6" -> nm <> "unix" ->
       stress_set_epoll_domain nm o = (-1, o, domain_listing).
Proof.
  repeat split; try reflexivity.
  intros nm H4 H6 Hu. unfold stress_set_epoll_domain.
  now rewrite find_domain_unknown.
Qed.

Lemma set_epoll_domain_registry_witness :
  stress_set_epoll_domain "sctp" (initial_options 6000)
  = (-1, initial_options 6000, domain_listing).
Proof.
  apply (set_epoll_domain_registry (initial_options 6000));
    intros H; discriminate H.
Defined.

(** The selector "local" is not a name of the table: the call fails and the
    domain stays what it was, here ipv4 with four servers. *)
Lemma set_epoll_domain_local_rejected :
  stress_set_epoll_domain "local" (mkOptions AF_INET 6000 4)
  = (-1, mkOptions AF_INET 6000 4, domain_listing).
Proof. reflexivity. Qed.

(** ** The port of a worker *)

Lemma client_port_formula (o : options) (instance : Z) (s : client_state) :
  int_range (opt_epoll_port o + port_counter s + max_servers o * instance) ->
  port (loop_head o instance s)
  = opt_epoll_port o + port_counter s + max_servers o * instance.
Proof.
  intros Hr. cbn. rewrite port_expression.
  rewrite <- Z.add_assoc. rewrite Z.add_assoc. now apply sint32_small.
Qed.

Lemma server_port_formula (o : options) (child instance : Z) :
  int_range (opt_epoll_port o + child + max_servers o * instance) ->
  server_port o child instance
  = opt_epoll_port o + child + max_servers o * instance.
Proof.
  intros Hr. unfold server_port. rewrite port_expression.
  now apply sint32_small.
Qed.

Lemma round_robin (o : options) (instance : Z) (s : client_state) :
  0 < max_servers o < 2 ^ 31 ->
  0 <= port_counter s < max_servers o ->
  port_counter (loop_head o instance s)
  = (port_counter s + 1) mod max_servers o
  /\ 0 <= port_counter (loop_head o instance s) < max_servers o.
Proof.
  intros Hm Hp. cbn.
  rewrite sint32_small by lia.
  rewrite Z.rem_mod_nonneg by lia.
  split; [reflexivity|]. apply Z.mod_pos_bound. lia.
Qed.

Lemma htons_small (p : Z) : port_range p -> htons p = p.
Proof. intros Hp. unfold htons. apply Z.mod_small. exact Hp. Qed.

Lemma port_range_int (z : Z) : port_range z -> int_range z.
Proof. unfold port_range, int_range. lia. Qed.

(** What the range check of stress_set_epoll_port gives: a base port between
    the two bounds handed to check_range, the second being
    MAX_EPOLL_PORT - STRESS_PROCS_MAX * MAX_SERVERS, an instance below
    STRESS_PROCS_MAX and a worker index below max_servers, which is at most
    MAX_SERVERS, give a port that is a port number.  The three constants come
    from stress-ng.h and are arguments here. *)
Lemma checked_port_in_range (o : options)
      (min_epoll_port max_epoll_port stress_procs_max : Z)
      (instance w : Z) :
  0 <= min_epoll_port -> max_epoll_port < 2 ^ 16 ->
  min_epoll_port <= opt_epoll_port o
  <= max_epoll_port - stress_procs_max * MAX_SERVERS ->
  0 <= instance < stress_procs_max ->
  0 <= w < max_servers o -> max_servers o <= MAX_SERVERS ->
  port_range (opt_epoll_port o + w + max_servers o * instance).
Proof.
  unfold port_range, MAX_SERVERS. intros Hmin Hmax Hbase Hi Hw Hms.
  assert (0 <= max_servers o * instance) by nia.
  assert (max_servers o * instance <= 4 * (stress_procs_max - 1)) by nia.
  lia.
Qed.

Lemma server_endpoint_port (o : options) (child instance : Z) :
  port_range (opt_epoll_port o + child + max_servers o * instance) ->
  htons (server_port o child instance)
  = opt_epoll_port o + child + max_servers o * instance.
Proof.
  intros Hr. rewrite server_port_formula by now apply port_range_int.
  now apply htons_small.
Qed.

Lemma client_endpoint_port (o : options) (instance : Z) (s : client_state) :
  port_range (opt_epoll_port o + port_counter s + max_servers o * instance) ->
  htons (port (loop_head o instance s))
  = opt_epoll_port o + port_counter s + max_servers o * instance.
Proof.
  intros Hr. rewrite client_port_formula by now apply port_range_int.
  now apply htons_small.
Qed.

(** C1: for every base port, instance and worker index for which
    base_port + worker_index + max_workers * instance_index is a port number
    (0..65535, which the range check on the base port and the bound on the
    instance guarantee), the port that the client hands to connect, with its
    round-robin counter as worker index, and the port that the server hands
    to bind, with its child index, are both exactly that number, for ipv4 and
    for ipv6; the round-robin counter stays below max_workers; with four
    workers, base port P and instance 2 the endpoint ports of the workers
    0..3 are P+8, P+9, P+10 and P+11; and two different pairs
    (instance_index, worker_index), with worker indices below max_workers,
    get different endpoint ports. *)
Theorem endpoint_port_allocation (o : options) (ppid : Z) :
  (forall (min_epoll_port max_epoll_port stress_procs_max instance w : Z),
      0 <= min_epoll_port -> max_epoll_port < 2 ^ 16 ->
      min_epoll_port <= opt_epoll_port o
      <= max_epoll_port - stress_procs_max * MAX_SERVERS ->
      0 <= instance < stress_procs_max ->
      0 <= w < max_servers o -> max_servers o <= MAX_SERVERS ->
      port_range (opt_epoll_port o + w + max_servers o * instance))
  /\ (forall (instance : Z) (s : client_state),
         let p := opt_epoll_port o + port_counter s
                  + max_servers o * instance in
         port_range p ->
         htons (port (loop_head o instance s)) = p
         /\ htons (server_port o (port_counter s) instance) = p
         /\ (opt_epoll_domain o = AF_INET ->
             connect_addr o instance ppid (port (loop_head o instance s))
             = Some (SockaddrIn INADDR_LOOPBACK p)
             /\ bind_addr o instance ppid
                          (server_port o (port_counter s) instance)
                = Some (SockaddrIn INADDR_ANY p))
         /\ (opt_epoll_domain o = AF_INET6 ->
             connect_addr o instance ppid (port (loop_head o instance s))
             = Some (SockaddrIn6 false p)
             /\ bind_addr o instance ppid
                          (server_port o (port_counter s) instance)
                = Some (SockaddrIn6 true p)))
  /\ (forall (instance : Z) (s : client_state),
         0 < max_servers o < 2 ^ 31 ->
         0 <= port_counter s < max_servers o ->
         port_counter (loop_head o instance s)
         = (port_counter s + 1) mod max_servers o
         /\ 0 <= port_counter (loop_head o instance s) < max_servers o)
  /\ (max_servers o = 4 ->
      port_range (opt_epoll_port o + 8) ->
      port_range (opt_epoll_port o + 11) ->
      map (fun child => htons (server_port o child 2)) [0; 1; 2; 3]
      = [opt_epoll_port o + 8; opt_epoll_port o + 9;
         opt_epoll_port o + 10; opt_epoll_port o + 11])
  /\ (forall i1 w1 i2 w2 : Z,
         0 <= w1 < max_servers o ->
         0 <= w2 < max_servers o ->
         port_range (opt_epoll_port o + w1 + max_servers o * i1) ->
         port_range (opt_epoll_port o + w2 + max_servers o * i2) ->
         (i1, w1) <> (i2, w2) ->
         htons (server_port o w1 i1) <> htons (server_port o w2 i2)).
Proof.
  split; [|split; [|split; [|split]]].
  - intros. now apply checked_port_in_range
      with min_epoll_port max_epoll_port stress_procs_max.
  - intros instance s p Hr. subst p.
    pose proof (client_endpoint_port o instance s Hr) as Hc.
    pose proof (server_endpoint_port o (port_counter s) instance Hr) as Hs.
    split; [exact Hc|]. split; [exact Hs|]. split.
    + intros Hd. unfold connect_addr, bind_addr. rewrite Hd, Hc, Hs.
      now split.
    + intros Hd. unfold connect_addr, bind_addr. rewrite Hd, Hc, Hs.
      now split.
  - intros instance s. apply round_robin.
  - intros Hm [Hlo _] [_ Hhi]. cbn [map].
    rewrite !server_endpoint_port;
      rewrite Hm; unfold port_range; try lia.
    repeat (apply f_equal2; [lia|]). reflexivity.
  - intros i1 w1 i2 w2 Hw1 Hw2 Hr1 Hr2 Hne.
    rewrite !server_endpoint_port by assumption.
    intros Heq. apply Hne.
    assert (i1 = i2) by (unfold port_range in *; nia).
    subst i2. f_equal. lia.
Qed.

Lemma endpoint_port_allocation_witness :
  let o := mkOptions AF_INET 6000 4 in
  let s := mkClient 0 3 0 0 0 no_world in
  port_range (opt_epoll_port o + 3 + max_servers o * 2)
  /\ (htons (port (loop_head o 2 s)) = 6011
      /\ htons (server_port o 3 2) = 6011
      /\ connect_addr o 2 1234 (port (loop_head o 2 s))
         = Some (SockaddrIn INADDR_LOOPBACK 6011)
      /\ bind_addr o 2 1234 (server_port o 3 2)
         = Some (SockaddrIn INADDR_ANY 6011))
  /\ port_counter (loop_head o 2 s) = 0
  /\ map (fun child => htons (server_port o child 2)) [0; 1; 2; 3]
     = [6008; 6009; 6010; 6011]
  /\ htons (server_port o 3 1) <> htons (server_port o 0 2)
  /\ htons (server_port o 0 0) <> htons (server_port o 0 14000).
Proof.
  intros o s.
  destruct (endpoint_port_allocation o 1234)
    as (Hcheck & Hport & Hrr & Hfour & Hdistinct).
  assert (Hr : port_range (opt_epoll_port o + 3 + max_servers o * 2)).
  { apply (Hcheck 1024 65535 1024 2 3); vm_compute; repeat split;
      first [reflexivity | intros H; discriminate H]. }
  split; [exact Hr|].
  destruct (Hport 2 s Hr) as (Hc & Hs & H4 & _).
  destruct (H4 eq_refl) as [Hca Hba].
  split; [repeat split; assumption|].
  split; [apply (Hrr 2 s); cbn; lia|].
  split; [apply Hfour; unfold port_range; cbn; try reflexivity; lia|].
  split; apply Hdistinct; unfold port_range; cbn; try lia;
    intros H; discriminate H.
Defined.

(** ** The client loop *)

(** Kinds of passes over the loop body. *)

Lemma count_app (p : event -> bool) (t1 t2 : list event) :
  count p (t1 ++ t2) = (count p t1 + count p t2)%nat.
Proof. unfold count. now rewrite filter_app, List.length_app. Qed.

Lemma sent_app (t1 t2 : list event) : sent (t1 ++ t2) = sent t1 ++ sent t2.
Proof.
  induction t1 as [|e t1 IH]; [reflexivity|].
  destruct e; cbn; now rewrite ?IH.
Qed.

Lemma payload_byte (c : Z) : payload c = repeat (65 + c mod 26) 4096.
Proof.
  unfold payload. f_equal.
  assert (0 <= c mod 26 < 26) by (apply Z.mod_pos_bound; lia).
  apply Z.mod_small. lia.
Qed.

(** Splits a boolean conjunction of comparisons into facts for lia. *)
Ltac bools :=
  repeat match goal with
         | H : _ && _ = true |- _ => apply andb_prop in H; destruct H
         | H : (_ <=? _) = true |- _ => apply Z.leb_le in H
         | H : (_ <? _) = true |- _ => apply Z.ltb_lt in H
         end.

(** Decides the comparisons of the code from the facts at hand. *)
Ltac decide_tests :=
  repeat match goal with
         | |- context [?x <? ?y] =>
             first [ replace (x <? y) with false
                       by (symmetry; apply Z.ltb_ge; lia)
                   | replace (x <? y) with true
                       by (symmetry; apply Z.ltb_lt; lia) ]
         end.

Arguments payload : simpl never.
Arguments uint64 : simpl never.
Arguments sun_path : simpl never.

Lemma gtb_false (x y : Z) : x <= y -> (x >? y) = false.
Proof. intros H. rewrite Z.gtb_ltb. now apply Z.ltb_ge. Qed.

Lemma gtb_true (x y : Z) : y < x -> (x >? y) = true.
Proof. intros H. rewrite Z.gtb_ltb. now apply Z.ltb_lt. Qed.

Lemma counts_from_S (c : Z) (n : nat) :
  counts_from c (S n) = c :: counts_from (c + 1) n.
Proof.
  unfold counts_from. cbn [seq map]. f_equal; [lia|].
  rewrite <- seq_shift, map_map.
  apply map_ext. intros i. lia.
Qed.

(** Counts the events of the explicit part of a trace. *)
Ltac count_events :=
  rewrite ?count_app; unfold count;
  cbn [filter List.length is_connect is_send is_close is_timer_call app];
  try lia.

Section ClientFacts.

Variable o : options.
Variables (instance max_ops ppid : Z).
Hypothesis Hreg : registered o.

Lemma connect_addr_registered (p : Z) :
  exists addr, connect_addr o instance ppid p = Some addr.
Proof.
  unfold connect_addr.
  destruct (registered_cases o Hreg) as [[-> _]|[[-> _]|[-> _]]];
    cbn; eauto.
Qed.

(** A pass whose connect fails with a transient error. *)
Lemma attempt_fails_transiently (a : attempt) (s : client_state) :
  fails_transiently a = true ->
  exists addr s',
    connect_addr o instance ppid (port s) = Some addr
    /\ client_attempt o instance max_ops ppid a s
       = (if retries s + 1 >? 100 then Return (-1) else Retry, s')
    /\ retries s' = retries s + 1
    /\ counter s' = counter s
    /\ port_counter s' = port_counter s
    /\ port s' = port s
    /\ timers (cw s') = timers (cw s)
    /\ paths (cw s') = paths (cw s)
    /\ trace (cw s')
       = trace (cw s) ++ connect_events o a addr
           ++ [Close (socket_res a); Usleep 1000]
           ++ (if retries s + 1 >? 100 then [PrFailedDbg "connect"]
               else []).
Proof.
  intros Ha. unfold fails_transiently, reaches_connect in Ha. bools.
  destruct (connect_addr_registered (port s)) as [addr Haddr].
  exists addr.
  unfold client_attempt.
  match goal with H : do_run_retry a = true |- _ => rewrite H end.
  cbn [negb]. decide_tests. cbn [port with_world].
  rewrite Haddr. cbn [port with_world].
  unfold connect_failed, transient in *.
  destruct (connect_errno a =? EINTR); cbn [orb] in *;
    [|match goal with H : _ || _ = true |- _ => rewrite H end];
    cbn [with_retries with_world with_connect_timeouts retries];
    destruct (retries s + 1 >? 100);
    eexists; (split; [reflexivity|]); (split; [reflexivity|]);
    cbn;
    unfold sys_timer_delete, sys_timer_settime, sys_timer_create;
    decide_tests; cbn; rewrite <- ?app_assoc; cbn; intuition.
Qed.

(** A pass whose connect succeeds and whose send fails. *)
Lemma attempt_send_fails (a : attempt) (s : client_state) :
  connects a = true -> send_res a < 0 ->
  exists addr s',
    connect_addr o instance ppid (port s) = Some addr
    /\ client_attempt o instance max_ops ppid a s = (Leave, s')
    /\ retries s' = 0
    /\ counter s' = counter s
    /\ connect_timeouts s' = connect_timeouts s
    /\ timers (cw s') = timers (cw s)
    /\ paths (cw s') = paths (cw s)
    /\ trace (cw s')
       = trace (cw s) ++ connect_events o a addr
           ++ [Send (socket_res a) (payload (counter s)) (send_res a);
               Close (socket_res a); PrFailedDbg "send"].
Proof.
  intros Ha Hsend. unfold connects, reaches_connect in Ha. bools.
  destruct (connect_addr_registered (port s)) as [addr Haddr].
  exists addr.
  unfold client_attempt.
  match goal with H : do_run_retry a = true |- _ => rewrite H end.
  cbn [negb]. decide_tests. cbn [port with_world].
  rewrite Haddr. cbn [port with_world].
  eexists; (split; [reflexivity|]); (split; [reflexivity|]).
  cbn.
  unfold sys_timer_delete, sys_timer_settime, sys_timer_create;
    decide_tests; cbn; rewrite <- ?app_assoc; cbn; intuition.
Qed.

(** A pass that succeeds as a whole. *)
Lemma attempt_succeeds (a : attempt) (s : client_state) :
  succeeds a = true ->
  exists addr s',
    connect_addr o instance ppid (port s) = Some addr
    /\ client_attempt o instance max_ops ppid a s
       = (if do_run_cond a
             && ((max_ops =? 0) || (uint64 (counter s + 1) <? max_ops))
          then Again else Leave, s')
    /\ retries s' = 0
    /\ counter s' = uint64 (counter s + 1)
    /\ port_counter s' = port_counter s
    /\ connect_timeouts s' = connect_timeouts s
    /\ timers (cw s') = timers (cw s)
    /\ paths (cw s') = paths (cw s)
    /\ trace (cw s')
       = trace (cw s) ++ connect_events o a addr
           ++ [Send (socket_res a) (payload (counter s)) (send_res a);
               Close (socket_res a); SchedYield].
Proof.
  intros Ha. unfold succeeds, connects, reaches_connect in Ha. bools.
  destruct (connect_addr_registered (port s)) as [addr Haddr].
  exists addr.
  unfold client_attempt.
  match goal with H : do_run_retry a = true |- _ => rewrite H end.
  cbn [negb]. decide_tests. cbn [port with_world].
  rewrite Haddr. cbn [port with_world counter with_counter with_retries].
  eexists; (split; [reflexivity|]); split.
  - destruct (do_run_cond a
              && ((max_ops =? 0) || (uint64 (counter s + 1) <? max_ops)));
      reflexivity.
  - cbn.
    unfold sys_timer_delete, sys_timer_settime, sys_timer_create;
      decide_tests; cbn; rewrite <- ?app_assoc; cbn; intuition.
Qed.

(** The code after the loop. *)
Lemma epilogue_facts (s : client_state) :
  counter (client_epilogue o instance ppid s) = counter s
  /\ retries (client_epilogue o instance ppid s) = retries s
  /\ timers (cw (client_epilogue o instance ppid s)) = timers (cw s)
  /\ trace (cw (client_epilogue o instance ppid s))
     = trace (cw s)
         ++ (if opt_epoll_domain o =? AF_UNIX
             then [Unlink (sun_path ppid instance)] else [])
         ++ (if connect_timeouts s =? 0 then []
             else [PrDbg "connect timeouts"]).
Proof.
  unfold client_epilogue.
  destruct (opt_epoll_domain o =? AF_UNIX); cbn;
    destruct (connect_timeouts s =? 0); cbn;
    rewrite <- ?app_assoc, ?app_nil_r; intuition.
Qed.

Lemma loop_fresh (a : attempt) (oracle : list attempt) (s : client_state) :
  client_loop o instance max_ops ppid true (a :: oracle) s
  = client_loop o instance max_ops ppid false (a :: oracle)
                (loop_head o instance s).
Proof. reflexivity. Qed.

(** *** The bound on consecutive retries *)

(** Up to 100 consecutive failures: the client is still retrying. *)
Lemma retries_within_bound (oracle : list attempt) :
  forall s : client_state,
    forallb fails_transiently oracle = true ->
    0 <= retries s ->
    retries s + Z.of_nat (List.length oracle) <= 100 ->
    exists s',
      client_loop o instance max_ops ppid false oracle s = Pending s'
      /\ retries s' = retries s + Z.of_nat (List.length oracle)
      /\ counter s' = counter s
      /\ count is_connect (trace (cw s'))
         = (count is_connect (trace (cw s)) + List.length oracle)%nat
      /\ count is_close (trace (cw s'))
         = (count is_close (trace (cw s)) + List.length oracle)%nat
      /\ forall addr,
          connect_addr o instance ppid (port s) = Some addr ->
          trace (cw s')
          = trace (cw s) ++ flat_map (failed_attempt_events o addr) oracle.
Proof.
  induction oracle as [|a oracle IH]; intros s Hall Hr Hbound.
  - exists s. cbn [client_loop List.length flat_map].
    repeat (split; [reflexivity || lia|]).
    intros addr _. now rewrite app_nil_r.
  - cbn [forallb] in Hall. apply andb_prop in Hall as [Ha Hall].
    cbn [List.length] in Hbound. rewrite Nat2Z.inj_succ in Hbound.
    destruct (attempt_fails_transiently a s Ha)
      as (addr & s1 & Haddr & Hstep & Hret & Hcnt & _ & Hport & _ & _ & Htr).
    replace (retries s + 1 >? 100) with false in Hstep, Htr
      by (symmetry; apply gtb_false; lia).
    destruct (IH s1 Hall)
      as (s' & Hrun & Hret' & Hcnt' & Hcon & Hclo & Hexact); [lia|lia|].
    exists s'. cbn [client_loop]. rewrite Hstep.
    split; [exact Hrun|].
    cbn [List.length]. rewrite Nat2Z.inj_succ.
    rewrite Hcon, Hclo.
    split; [lia|]. split; [congruence|].
    split; [rewrite Htr; unfold connect_events; count_events|].
    split; [rewrite Htr; unfold connect_events; count_events|].
    intros addr0 Haddr0. rewrite Haddr in Haddr0. injection Haddr0 as <-.
    rewrite (Hexact addr) by (now rewrite Hport).
    rewrite Htr. cbn [flat_map]. unfold failed_attempt_events.
    rewrite app_nil_r, <- !app_assoc. reflexivity.
Qed.

(** More than 100 consecutive failures: the client gives up on the 101st. *)
Lemma retries_beyond_bound (oracle : list attempt) :
  forall s : client_state,
    forallb fails_transiently oracle = true ->
    0 <= retries s <= 100 ->
    100 < retries s + Z.of_nat (List.length oracle) ->
    exists s',
      client_loop o instance max_ops ppid false oracle s = Returned (-1) s'
      /\ retries s' = 101
      /\ counter s' = counter s
      /\ count is_connect (trace (cw s'))
         = (count is_connect (trace (cw s))
            + Z.to_nat (101 - retries s))%nat
      /\ count is_close (trace (cw s'))
         = (count is_close (trace (cw s))
            + Z.to_nat (101 - retries s))%nat
      /\ forall addr,
          connect_addr o instance ppid (port s) = Some addr ->
          trace (cw s')
          = trace (cw s)
              ++ flat_map (failed_attempt_events o addr)
                          (firstn (Z.to_nat (101 - retries s)) oracle)
              ++ [PrFailedDbg "connect"].
Proof.
  induction oracle as [|a oracle IH]; intros s Hall Hr Hbound.
  - cbn in Hbound. lia.
  - cbn [forallb] in Hall. apply andb_prop in Hall as [Ha Hall].
    cbn [List.length] in Hbound. rewrite Nat2Z.inj_succ in Hbound.
    destruct (attempt_fails_transiently a s Ha)
      as (addr & s1 & Haddr & Hstep & Hret & Hcnt & _ & Hport & _ & _ & Htr).
    cbn [client_loop]. rewrite Hstep.
    destruct (retries s + 1 >? 100) eqn:Hover.
    + rewrite Z.gtb_ltb in Hover. apply Z.ltb_lt in Hover. exists s1.
      assert (H100 : retries s = 100) by lia.
      rewrite H100 in *.
      split; [reflexivity|]. split; [lia|]. split; [exact Hcnt|].
      split; [rewrite Htr; unfold connect_events; count_events|].
      split; [rewrite Htr; unfold connect_events; count_events|].
      intros addr0 Haddr0. rewrite Haddr in Haddr0. injection Haddr0 as <-.
      rewrite Htr. change (Z.to_nat (101 - 100)) with 1%nat.
      cbn [firstn flat_map]. unfold failed_attempt_events.
      rewrite app_nil_r, <- !app_assoc. reflexivity.
    + rewrite Z.gtb_ltb in Hover. apply Z.ltb_ge in Hover.
      destruct (IH s1 Hall)
        as (s' & Hrun & Hret' & Hcnt' & Hcon & Hclo & Hexact); [lia|lia|].
      exists s'. split; [exact Hrun|].
      rewrite Hcon, Hclo, Hret.
      split; [exact Hret'|]. split; [congruence|].
      split; [rewrite Htr; unfold connect_events; count_events|].
      split; [rewrite Htr; unfold connect_events; count_events|].
      intros addr0 Haddr0. rewrite Haddr in Haddr0. injection Haddr0 as <-.
      rewrite (Hexact addr) by (now rewrite Hport).
      rewrite Htr, Hret.
      replace (Z.to_nat (101 - retries s))
        with (S (Z.to_nat (101 - (retries s + 1)))) by lia.
      cbn [firstn flat_map]. unfold failed_attempt_events.
      rewrite app_nil_r, <- !app_assoc. reflexivity.
Qed.

(** C4: in a run in which every connect attempt fails with a transient error
    (interrupted by the timer, refused, or no such path), each attempt closes
    the descriptor its own socket call returned, pauses, and the client tries
    again at the same address: the trace of the run is, attempt after attempt,
    the calls up to the deletion of the timer, the close of that attempt's
    socket and the pause.  After up to 100 consecutive failures the client is
    still trying, and with the 101st it logs the failure and returns -1,
    whatever attempts the oracle holds beyond it.  A connect that succeeds
    sets the retry counter back to 0. *)
Theorem connect_retries_bounded :
  (forall (oracle : list attempt) (s : client_state),
      forallb fails_transiently oracle = true ->
      oracle <> [] ->
      (Z.of_nat (List.length oracle) <= 100 ->
       exists addr s',
         connect_addr o instance ppid (port (loop_head o instance s))
         = Some addr
         /\ client_loop o instance max_ops ppid true oracle s = Pending s'
         /\ retries s' = Z.of_nat (List.length oracle)
         /\ count is_connect (trace (cw s'))
            = (count is_connect (trace (cw s)) + List.length oracle)%nat
         /\ count is_close (trace (cw s'))
            = (count is_close (trace (cw s)) + List.length oracle)%nat
         /\ trace (cw s')
            = trace (cw s) ++ flat_map (failed_attempt_events o addr) oracle)
      /\ (100 < Z.of_nat (List.length oracle) ->
          exists addr s',
            connect_addr o instance ppid (port (loop_head o instance s))
            = Some addr
            /\ client_loop o instance max_ops ppid true oracle s
               = Returned (-1) s'
            /\ retries s' = 101
            /\ count is_connect (trace (cw s'))
               = (count is_connect (trace (cw s)) + 101)%nat
            /\ count is_close (trace (cw s'))
               = (count is_close (trace (cw s)) + 101)%nat
            /\ trace (cw s')
               = trace (cw s)
                   ++ flat_map (failed_attempt_events o addr)
                               (firstn 101 oracle)
                   ++ [PrFailedDbg "connect"]))
  /\ (forall (a : attempt) (s : client_state),
         connects a = true ->
         retries (snd (client_attempt o instance max_ops ppid a s)) = 0).
Proof.
  split.
  - intros oracle s Hall Hne.
    destruct oracle as [|a oracle]; [congruence|].
    destruct (connect_addr_registered (port (loop_head o instance s)))
      as [addr Haddr].
    rewrite loop_fresh. split; intros Hlen.
    + destruct (retries_within_bound (a :: oracle) (loop_head o instance s))
        as (s' & Hrun & Hret & _ & Hcon & Hclo & Hexact);
        try assumption; try (cbn [retries loop_head]; lia).
      exists addr, s'. cbn [retries loop_head] in Hret.
      split; [exact Haddr|]. split; [exact Hrun|]. split; [lia|].
      split; [exact Hcon|]. split; [exact Hclo|].
      exact (Hexact addr Haddr).
    + destruct (retries_beyond_bound (a :: oracle) (loop_head o instance s))
        as (s' & Hrun & Hret & _ & Hcon & Hclo & Hexact);
        try assumption; try (cbn [retries loop_head]; lia).
      exists addr, s'. cbn [retries loop_head] in Hcon, Hclo.
      split; [exact Haddr|]. split; [exact Hrun|]. split; [exact Hret|].
      split; [exact Hcon|]. split; [exact Hclo|].
      exact (Hexact addr Haddr).
  - intros a s Ha.
    destruct (Z.ltb_spec (send_res a) 0) as [Hsend|Hsend].
    + destruct (attempt_send_fails a s Ha Hsend)
        as (addr & s' & _ & -> & Hret & _).
      exact Hret.
    + assert (Hok : succeeds a = true).
      { unfold succeeds. rewrite Ha. now apply Z.leb_le. }
      destruct (attempt_succeeds a s Hok) as (addr & s' & _ & -> & Hret & _).
      exact Hret.
Qed.

(** C10: when send fails on a connected descriptor, the client closes the
    descriptor, logs the failure, leaves the loop with the operation counter
    as it was and returns EXIT_SUCCESS, after the unlink and the report of
    connect timeouts that end every normal return. *)
Theorem send_failure_is_success (fresh : bool) (a : attempt)
        (oracle : list attempt) (s : client_state) :
  connects a = true ->
  send_res a < 0 ->
  exists addr s',
    client_loop o instance max_ops ppid fresh (a :: oracle) s
    = Returned EXIT_SUCCESS s'
    /\ counter s' = counter s
    /\ trace (cw s')
       = trace (cw s) ++ connect_events o a addr
           ++ [Send (socket_res a) (payload (counter s)) (send_res a);
               Close (socket_res a); PrFailedDbg "send"]
           ++ (if opt_epoll_domain o =? AF_UNIX
               then [Unlink (sun_path ppid instance)] else [])
           ++ (if connect_timeouts s =? 0 then []
               else [PrDbg "connect timeouts"]).
Proof.
  intros Ha Hsend. cbn [client_loop].
  set (s0 := if fresh then loop_head o instance s else s).
  assert (Hs0 : counter s0 = counter s /\ trace (cw s0) = trace (cw s)
                /\ connect_timeouts s0 = connect_timeouts s).
  { subst s0. destruct fresh; repeat split; reflexivity. }
  destruct Hs0 as (Hc0 & Ht0 & Hto0).
  destruct (attempt_send_fails a s0 Ha Hsend)
    as (addr & s1 & _ & -> & _ & Hcnt & Hto & _ & _ & Htr).
  exists addr, (client_epilogue o instance ppid s1).
  destruct (epilogue_facts s1) as (Hcnt' & _ & _ & Htr').
  split; [reflexivity|]. split; [congruence|].
  rewrite Htr', Htr, Hto, Hto0, Ht0, Hc0.
  now rewrite <- !app_assoc.
Qed.

(** *** Successful cycles *)

(** The operation counter moves only in a pass that succeeds as a whole. *)
Lemma counter_moves_on_success (a : attempt) (s : client_state) :
  counter (snd (client_attempt o instance max_ops ppid a s)) <> counter s ->
  succeeds a = true.
Proof.
  unfold client_attempt, succeeds, connects, reaches_connect.
  rewrite !Z.leb_antisym.
  destruct (do_run_retry a); cbn [negb andb snd]; [|congruence].
  destruct (socket_res a <? 0); cbn [negb andb snd counter with_world];
    [congruence|].
  destruct (timer_create_res a <? 0); cbn [negb andb snd counter with_world];
    [congruence|].
  destruct (timer_settime_res a <? 0); cbn [negb andb snd counter with_world];
    [congruence|].
  cbn [port with_world].
  destruct (connect_addr o instance ppid (port s));
    cbn [snd counter with_world]; [|congruence].
  destruct (timer_delete_res a <? 0); cbn [negb andb snd counter with_world];
    [congruence|].
  destruct (connect_res a <? 0); cbn [negb andb].
  - unfold connect_failed.
    destruct (connect_errno a =? EINTR);
      [|destruct ((connect_errno a =? ECONNREFUSED)
                  || (connect_errno a =? ENOENT))];
      cbn [retries with_retries with_world with_connect_timeouts];
      match goal with |- context [if ?c then _ else _] => destruct c end;
      cbn [snd counter with_world with_retries with_connect_timeouts];
      congruence.
  - destruct (send_res a <? 0);
      cbn [negb snd counter with_world with_retries with_counter];
      [congruence|reflexivity].
Qed.

(** [max_ops - counter] successful cycles bring the counter to [max_ops] and
    end the loop. *)
Lemma successful_run (oracle : list attempt) :
  forall s : client_state,
    forallb (fun a => succeeds a && do_run_cond a) oracle = true ->
    0 <= counter s < max_ops ->
    max_ops < 2 ^ 64 ->
    max_ops - counter s <= Z.of_nat (List.length oracle) ->
    exists s',
      client_loop o instance max_ops ppid true oracle s
      = Returned EXIT_SUCCESS s'
      /\ counter s' = max_ops
      /\ count is_connect (trace (cw s'))
         = (count is_connect (trace (cw s))
            + Z.to_nat (max_ops - counter s))%nat
      /\ count is_send (trace (cw s'))
         = (count is_send (trace (cw s))
            + Z.to_nat (max_ops - counter s))%nat
      /\ count is_close (trace (cw s'))
         = (count is_close (trace (cw s))
            + Z.to_nat (max_ops - counter s))%nat
      /\ sent (trace (cw s'))
         = sent (trace (cw s))
             ++ map payload
                  (counts_from (counter s) (Z.to_nat (max_ops - counter s))).
Proof.
  induction oracle as [|a oracle IH]; intros s Hall Hc Hmax Hlen.
  - cbn in Hlen. lia.
  - cbn [forallb] in Hall. apply andb_prop in Hall as [Ha Hall].
    apply andb_prop in Ha as [Ha Hrun].
    cbn [List.length] in Hlen. rewrite Nat2Z.inj_succ in Hlen.
    rewrite loop_fresh.
    destruct (attempt_succeeds a (loop_head o instance s) Ha)
      as (addr & s1 & _ & Hstep & _ & Hcnt & _ & _ & _ & _ & Htr).
    cbn [counter loop_head cw] in Hstep, Hcnt, Htr.
    rewrite uint64_small in Hstep, Hcnt by lia.
    cbn [client_loop]. rewrite Hstep, Hrun.
    replace (max_ops =? 0) with false by (symmetry; apply Z.eqb_neq; lia).
    cbn [andb orb].
    replace (Z.to_nat (max_ops - counter s))
      with (S (Z.to_nat (max_ops - (counter s + 1)))) by lia.
    rewrite counts_from_S. cbn [map].
    destruct (Z.ltb_spec (counter s + 1) max_ops) as [Hlt|Hge].
    + destruct (IH s1 Hall) as (s' & Hloop & Hc' & Hcon & Hsnd & Hclo & Hsent);
        try lia.
      exists s'. split; [exact Hloop|]. split; [exact Hc'|].
      rewrite Hcon, Hsnd, Hclo, Hsent, Htr, Hcnt, !sent_app.
      unfold connect_events. cbn [sent app].
      rewrite <- !app_assoc. cbn [app].
      repeat split; count_events.
    + destruct (epilogue_facts s1) as (Hcnt' & _ & _ & Htr').
      exists (client_epilogue o instance ppid s1).
      split; [reflexivity|]. split; [lia|].
      replace (Z.to_nat (max_ops - (counter s + 1))) with O by lia.
      rewrite Htr', Htr, !sent_app.
      unfold connect_events, counts_from. cbn [sent app seq map].
      destruct (opt_epoll_domain o =? AF_UNIX);
        destruct (connect_timeouts s1 =? 0);
        cbn [sent app]; rewrite ?app_nil_r;
        repeat split; count_events.
Qed.

(** C6: a pass whose connect and send succeed sends 4096 bytes, each
    'A' + counter mod 26, closes the descriptor and adds one to the operation
    counter; the counter changes in no other pass; and from a counter of 0,
    with a limit max_ops > 0 and every operation succeeding, the loop makes
    exactly max_ops connect-send-close cycles, the k-th with the payload of
    counter value k, and returns EXIT_SUCCESS with the counter at max_ops. *)
Theorem successful_cycles :
  (forall (a : attempt) (s : client_state),
      succeeds a = true ->
      0 <= counter s -> counter s + 1 < 2 ^ 64 ->
      exists addr,
        counter (snd (client_attempt o instance max_ops ppid a s))
        = counter s + 1
        /\ trace (cw (snd (client_attempt o instance max_ops ppid a s)))
           = trace (cw s) ++ connect_events o a addr
               ++ [Send (socket_res a) (repeat (65 + counter s mod 26) 4096)
                        (send_res a);
                   Close (socket_res a); SchedYield])
  /\ (forall (a : attempt) (s : client_state),
         counter (snd (client_attempt o instance max_ops ppid a s))
         <> counter s ->
         succeeds a = true)
  /\ (forall (oracle : list attempt) (s : client_state),
         counter s = 0 ->
         0 < max_ops < 2 ^ 64 ->
         forallb (fun a => succeeds a && do_run_cond a) oracle = true ->
         max_ops <= Z.of_nat (List.length oracle) ->
         exists s',
           client_loop o instance max_ops ppid true oracle s
           = Returned EXIT_SUCCESS s'
           /\ counter s' = max_ops
           /\ count is_connect (trace (cw s'))
              = (count is_connect (trace (cw s)) + Z.to_nat max_ops)%nat
           /\ count is_send (trace (cw s'))
              = (count is_send (trace (cw s)) + Z.to_nat max_ops)%nat
           /\ count is_close (trace (cw s'))
              = (count is_close (trace (cw s)) + Z.to_nat max_ops)%nat
           /\ sent (trace (cw s'))
              = sent (trace (cw s))
                  ++ map payload (counts_from 0 (Z.to_nat max_ops))).
Proof.
  split; [|split].
  - intros a s Ha H0 H64.
    destruct (attempt_succeeds a s Ha)
      as (addr & s' & _ & -> & _ & Hcnt & _ & _ & _ & _ & Htr).
    exists addr. cbn [snd]. rewrite Hcnt, Htr, payload_byte.
    split; [apply uint64_small; lia|reflexivity].
  - exact counter_moves_on_success.
  - intros oracle s Hzero Hmax Hall Hlen.
    destruct (successful_run oracle s Hall) as (s' & Hrun & Hrest);
      try lia.
    rewrite Hzero, Z.sub_0_r in Hrest.
    exists s'. split; assumption.
Qed.

(** *** The connect deadline *)

(** The timers after one pass that starts without a timer: a pass that
    returns leaves no timer armed, any other pass leaves no timer at all. *)
Lemma attempt_timers (a : attempt) (s : client_state) :
  timers (cw s) = [] ->
  match client_attempt o instance max_ops ppid a s with
  | (Return rc, s') => armed (cw s') = 0%nat
  | (_, s') => timers (cw s') = []
  end.
Proof.
  intros Ht.
  destruct (connect_addr_registered (port s)) as [addr Haddr].
  unfold client_attempt, sys_timer_create, sys_timer_settime,
    sys_timer_delete, connect_failed, armed.
  destruct (do_run_retry a); cbn [negb]; [|exact Ht].
  destruct (socket_res a <? 0); [cbn; now rewrite Ht|].
  destruct (timer_create_res a <? 0) eqn:Hcreate; [cbn; now rewrite Ht|].
  destruct (timer_settime_res a <? 0) eqn:Hset; [cbn; now rewrite Ht|].
  cbn [port with_world]. rewrite Haddr.
  destruct (timer_delete_res a <? 0) eqn:Hdel; [cbn; now rewrite Ht|].
  destruct (connect_res a <? 0).
  - destruct (connect_errno a =? EINTR);
      [|destruct ((connect_errno a =? ECONNREFUSED)
                  || (connect_errno a =? ENOENT))];
      cbn [retries with_retries with_world with_connect_timeouts];
      match goal with |- context [if ?c then _ else _] => destruct c end;
      cbn; now rewrite Ht.
  - destruct (send_res a <? 0); [cbn; now rewrite Ht|].
    match goal with |- context [if ?c then _ else _] => destruct c end;
      cbn; now rewrite Ht.
Qed.

(** The timers at the end of a run that starts without a timer. *)
Lemma loop_timers (oracle : list attempt) :
  forall (fresh : bool) (s : client_state),
    timers (cw s) = [] ->
    match client_loop o instance max_ops ppid fresh oracle s with
    | Pending s' => timers (cw s') = []
    | Returned rc s' => armed (cw s') = 0%nat
    end.
Proof.
  induction oracle as [|a oracle IH]; intros fresh s Ht; [exact Ht|].
  cbn [client_loop].
  set (s0 := if fresh then loop_head o instance s else s).
  assert (Ht0 : timers (cw s0) = []) by (subst s0; now destruct fresh).
  pose proof (attempt_timers a s0 Ht0) as Hpass.
  destruct (client_attempt o instance max_ops ppid a s0) as [[| | |rc] s1].
  - now apply IH.
  - now apply IH.
  - destruct (epilogue_facts s1) as (_ & _ & Hte & _).
    unfold armed. now rewrite Hte, Hpass.
  - exact Hpass.
Qed.

(** Every pass that gets as far as connect has the same five calls around
    it, and no other timer call. *)
Lemma attempt_brackets_connect (a : attempt) (s : client_state) :
  reaches_connect a = true ->
  exists addr rest,
    trace (cw (snd (client_attempt o instance max_ops ppid a s)))
    = trace (cw s) ++ connect_events o a addr ++ rest
    /\ count is_timer_call rest = 0%nat
    /\ count is_connect rest = 0%nat.
Proof.
  intros Ha. unfold reaches_connect in Ha. bools.
  destruct (connect_addr_registered (port s)) as [addr Haddr].
  exists addr.
  unfold client_attempt.
  match goal with H : do_run_retry a = true |- _ => rewrite H end.
  cbn [negb]. decide_tests. cbn [port with_world].
  rewrite Haddr. unfold connect_events.
  unfold sys_timer_create, sys_timer_settime, sys_timer_delete, connect_failed.
  decide_tests.
  destruct (timer_delete_res a <? 0).
  { eexists [_; _]. cbn. rewrite <- !app_assoc. now cbn. }
  destruct (connect_res a <? 0).
  - destruct (connect_errno a =? EINTR);
      [|destruct ((connect_errno a =? ECONNREFUSED)
                  || (connect_errno a =? ENOENT))];
      cbn [retries with_retries with_world with_connect_timeouts];
      match goal with |- context [if ?c then _ else _] => destruct c end;
      cbn; rewrite <- !app_assoc; cbn [app];
      first [ eexists [_; _]; split; [reflexivity|split; reflexivity]
            | eexists [_; _; _]; split; [reflexivity|split; reflexivity]
            | eexists [_; _; _; _]; split; [reflexivity|split; reflexivity] ].
  - destruct (send_res a <? 0).
    + eexists [_; _; _]. cbn. rewrite <- !app_assoc. now cbn.
    + match goal with |- context [if ?c then _ else _] => destruct c end;
        eexists [_; _; _]; cbn; rewrite <- !app_assoc; now cbn.
Qed.

(** C7, for a domain of the table (the only values stress_set_epoll_domain
    stores): in every pass that gets as far as connect, the timer is created for
    SIGRTMIN and armed with an interval of 250 ms right before the connect
    call, and timer_delete is called right after it, whether connect
    succeeded or failed, with no other timer call and no other connect in the
    pass, so that a pass arms at most one timer; a pass that starts without a
    timer leaves none behind when the next pass begins, and none armed when
    it returns; and a client that starts without a timer has none while it
    runs and none armed when it returns. *)
Theorem connect_deadline :
  (forall (a : attempt) (s : client_state),
      reaches_connect a = true ->
      exists addr rest,
        trace (cw (snd (client_attempt o instance max_ops ppid a s)))
        = trace (cw s)
            ++ [ Socket (opt_epoll_domain o) (socket_res a);
                 TimerCreate SIGRTMIN (timer_create_res a);
                 TimerSettime 250000000 (timer_settime_res a);
                 Connect (socket_res a) addr (connect_res a);
                 TimerDelete (timer_delete_res a) ]
            ++ rest
        /\ count is_timer_call rest = 0%nat
        /\ count is_connect rest = 0%nat)
  /\ (forall (a : attempt) (s : client_state),
         timers (cw s) = [] ->
         match client_attempt o instance max_ops ppid a s with
         | (Return rc, s') => armed (cw s') = 0%nat
         | (_, s') => timers (cw s') = []
         end)
  /\ (forall (count sigaction_res : Z) (oracle : list attempt) (w : world),
         timers w = [] ->
         match epoll_client o instance max_ops ppid count sigaction_res
                            oracle w with
         | Pending s' => timers (cw s') = []
         | Returned rc s' => armed (cw s') = 0%nat
         end).
Proof.
  split; [exact attempt_brackets_connect|].
  split; [exact attempt_timers|].
  intros c sig oracle w Hw. unfold epoll_client.
  destruct (sig <? 0).
  - unfold armed. cbn. now rewrite Hw.
  - apply loop_timers. exact Hw.
Qed.

End ClientFacts.


(** *** Concrete runs of the client *)

Lemma connect_retries_bounded_witness :
  let o := initial_options 6000 in
  forallb fails_transiently (repeat refused 101) = true
  /\ repeat refused 101 <> []
  /\ 100 < Z.of_nat (List.length (repeat refused 101))
  /\ exists addr s',
      connect_addr o 0 1234 (port (loop_head o 0 client_start)) = Some addr
      /\ client_loop o 0 0 1234 true (repeat refused 101) client_start
         = Returned (-1) s'
      /\ retries s' = 101
      /\ count is_connect (trace (cw s'))
         = (count is_connect (trace (cw client_start)) + 101)%nat
      /\ count is_close (trace (cw s'))
         = (count is_close (trace (cw client_start)) + 101)%nat
      /\ trace (cw s')
         = trace (cw client_start)
             ++ flat_map (failed_attempt_events o addr)
                         (firstn 101 (repeat refused 101))
             ++ [PrFailedDbg "connect"].
Proof.
  intros o.
  assert (Hall : forallb fails_transiently (repeat refused 101) = true)
    by (vm_compute; reflexivity).
  assert (Hne : repeat refused 101 <> []) by (intros H; discriminate H).
  assert (Hlen : 100 < Z.of_nat (List.length (repeat refused 101)))
    by (vm_compute; reflexivity).
  split; [exact Hall|]. split; [exact Hne|]. split; [exact Hlen|].
  exact (proj2 (proj1 (connect_retries_bounded
                         o 0 0 1234 (initial_options_registered 6000))
                      (repeat refused 101) client_start Hall Hne) Hlen).
Defined.

Lemma send_failure_is_success_witness :
  let o := initial_options 6000 in
  connects send_fails = true
  /\ send_res send_fails < 0
  /\ exists addr s',
      client_loop o 0 0 1234 true [send_fails; complete] client_start
      = Returned EXIT_SUCCESS s'
      /\ counter s' = counter client_start
      /\ trace (cw s')
         = trace (cw client_start) ++ connect_events o send_fails addr
             ++ [Send (socket_res send_fails) (payload (counter client_start))
                      (send_res send_fails);
                 Close (socket_res send_fails); PrFailedDbg "send"]
             ++ (if opt_epoll_domain o =? AF_UNIX
                 then [Unlink (sun_path 1234 0)] else [])
             ++ (if connect_timeouts client_start =? 0 then []
                 else [PrDbg "connect timeouts"]).
Proof.
  intros o.
  assert (Hc : connects send_fails = true) by reflexivity.
  assert (Hs : send_res send_fails < 0) by (cbn; lia).
  split; [exact Hc|]. split; [exact Hs|].
  exact (send_failure_is_success
           o 0 0 1234 (initial_options_registered 6000)
           true send_fails [complete] client_start Hc Hs).
Defined.

Lemma successful_cycles_witness :
  let o := initial_options 6000 in
  counter client_start = 0
  /\ 0 < 3 < 2 ^ 64
  /\ forallb (fun a => succeeds a && do_run_cond a) (repeat complete 3) = true
  /\ 3 <= Z.of_nat (List.length (repeat complete 3))
  /\ exists s',
      client_loop o 0 3 1234 true (repeat complete 3) client_start
      = Returned EXIT_SUCCESS s'
      /\ counter s' = 3
      /\ count is_connect (trace (cw s'))
         = (count is_connect (trace (cw client_start)) + Z.to_nat 3)%nat
      /\ count is_send (trace (cw s'))
         = (count is_send (trace (cw client_start)) + Z.to_nat 3)%nat
      /\ count is_close (trace (cw s'))
         = (count is_close (trace (cw client_start)) + Z.to_nat 3)%nat
      /\ sent (trace (cw s'))
         = sent (trace (cw client_start))
             ++ map payload (counts_from 0 (Z.to_nat 3)).
Proof.
  intros o.
  assert (H0 : counter client_start = 0) by reflexivity.
  assert (Hmax : 0 < 3 < 2 ^ 64) by (split; reflexivity).
  assert (Hall : forallb (fun a => succeeds a && do_run_cond a)
                         (repeat complete 3) = true) by reflexivity.
  assert (Hlen : 3 <= Z.of_nat (List.length (repeat complete 3)))
    by (cbn; lia).
  split; [exact H0|]. split; [exact Hmax|].
  split; [exact Hall|]. split; [exact Hlen|].
  exact (proj2 (proj2 (successful_cycles
                         o 0 3 1234 (initial_options_registered 6000)))
               (repeat complete 3) client_start H0 Hmax Hall Hlen).
Defined.

Lemma connect_deadline_witness :
  let o := initial_options 6000 in
  timers no_world = []
  /\ match epoll_client o 0 0 1234 0 0 [refused; complete] no_world with
     | Pending s' => timers (cw s') = []
     | Returned rc s' => armed (cw s') = 0%nat
     end.
Proof.
  intros o.
  assert (Hw : timers no_world = []) by reflexivity.
  split; [exact Hw|].
  exact (proj2 (proj2 (connect_deadline
                         o 0 0 1234 (initial_options_registered 6000)))
               0 0 [refused; complete] no_world Hw).
Defined.

(** C5 at its failing inputs: with the unix domain and the socket path in
    place, the client returns -1 and the path is still there when socket fails,
    when timer_create, timer_settime or timer_delete fails, and when the retry
    bound is exceeded; the path is gone when the client returns through the
    end of the loop. *)
Theorem client_failure_keeps_path :
  let o := initial_options 6000 in
  let p := sun_path 1234 0 in
  let w := mkWorld [] [p] [] in
  let run oracle := epoll_client o 0 1 1234 0 0 oracle w in
  let kept r := (result r, path_exists p (cw (final r))) in
  kept (run [mkAttempt true (-1) 0 0 0 0 0 0 true]) = (Some (-1), true)
  /\ kept (run [mkAttempt true 3 (-1) 0 0 0 0 0 true]) = (Some (-1), true)
  /\ kept (run [mkAttempt true 3 0 (-1) 0 0 0 0 true]) = (Some (-1), true)
  /\ kept (run [mkAttempt true 3 0 0 0 0 (-1) 0 true]) = (Some (-1), true)
  /\ kept (run (repeat refused 101)) = (Some (-1), true)
  /\ kept (run [complete]) = (Some EXIT_SUCCESS, false).
Proof. vm_compute. repeat split. Qed.

(** C2 at its failing input: 101 refused connects make epoll_client return
    -1, and stress_epoll, which drops that value, returns EXIT_SUCCESS. *)
Theorem stress_epoll_drops_failure :
  let o := mkOptions AF_INET 6000 4 in
  let fork_res i := 100 + i in
  let waitpid_res i := 100 + i in
  result (epoll_client o 0 0 1234 0 0 (repeat refused 101) no_world)
  = Some (-1)
  /\ result (stress_epoll o 0 0 1234 fork_res waitpid_res 0 0
                          (repeat refused 101) no_world)
     = Some EXIT_SUCCESS.
Proof. vm_compute. split; reflexivity. Qed.

(** Whatever the client returns, stress_epoll returns EXIT_SUCCESS. *)
Lemma stress_epoll_result (o : options) (instance max_ops ppid : Z)
      (fork_res waitpid_res : Z -> Z) (count sigaction_res : Z)
      (oracle : list attempt) (w : world) :
  result (stress_epoll o instance max_ops ppid fork_res waitpid_res
                       count sigaction_res oracle w) = None
  \/ result (stress_epoll o instance max_ops ppid fork_res waitpid_res
                          count sigaction_res oracle w) = Some EXIT_SUCCESS.
Proof.
  unfold stress_epoll.
  destruct (spawn_loop _ _ _ _ _) as [[[|] pids] w']; [|now right].
  destruct (epoll_client _ _ _ _ _ _ _ _); [now right|now left].
Qed.

(** ** The server *)

Lemma emit_emit_all (e : event) (es : list event) (w : world) :
  emit e (emit_all es w) = emit_all (es ++ [e]) w.
Proof. unfold emit, emit_all. cbn. now rewrite <- app_assoc. Qed.

Lemma emit_all_nil (w : world) : emit_all [] w = w.
Proof. destruct w. unfold emit_all. cbn. now rewrite app_nil_r. Qed.

Lemma emit_all_app (es1 es2 : list event) (w : world) :
  emit_all es2 (emit_all es1 w) = emit_all (es1 ++ es2) w.
Proof. unfold emit_all. cbn. now rewrite <- app_assoc. Qed.

(** *** The accept loop *)

Lemma notification_accepts (efd sfd : Z) (taken : list accept_answer) :
  forall (oracle : list accept_answer) (w : world),
    forallb accepted taken = true ->
    epoll_notification efd sfd (taken ++ oracle) w
    = epoll_notification efd sfd oracle
        (emit_all (flat_map (accepted_events efd sfd) taken) w).
Proof.
  induction taken as [|a taken IH]; intros oracle w Hall.
  - cbn [app flat_map]. now rewrite emit_all_nil.
  - cbn [forallb] in Hall. apply andb_prop in Hall as [Ha Hall].
    unfold accepted in Ha. bools.
    cbn [app epoll_notification flat_map].
    unfold epoll_set_fd_nonblock, epoll_ctl_add. decide_tests.
    rewrite IH by assumption. f_equal.
    unfold emit, emit_all, accepted_events. cbn [trace paths timers].
    f_equal. rewrite <- !app_assoc. reflexivity.
Qed.

(** How the accept loop ends when accept fails, after any number of accepted
    connections. *)
Lemma notification_ends (efd sfd : Z) (taken : list accept_answer)
      (a : accept_answer) (oracle : list accept_answer) (w : world) :
  forallb accepted taken = true ->
  accept_res a < 0 ->
  let w' := emit_all (flat_map (accepted_events efd sfd) taken
                        ++ [Accept sfd (accept_res a)]) w in
  epoll_notification efd sfd (taken ++ a :: oracle) w
  = if (accept_errno a =? EAGAIN) || (accept_errno a =? EWOULDBLOCK)
       || (accept_errno a =? EMFILE) || (accept_errno a =? ENFILE)
    then Some (0, w')
    else Some (-1, emit (PrFailedErr "accept") w').
Proof.
  intros Hall Hneg w'. subst w'.
  rewrite notification_accepts by assumption.
  cbn [epoll_notification]. decide_tests.
  rewrite emit_emit_all.
  destruct ((accept_errno a =? EAGAIN) || (accept_errno a =? EWOULDBLOCK));
    [reflexivity|].
  cbn [orb].
  destruct ((accept_errno a =? EMFILE) || (accept_errno a =? ENFILE));
    reflexivity.
Qed.

(** C8, as the code has it: when accept fails in the accept loop, after any
    number of accepted connections, EAGAIN and EWOULDBLOCK end the loop with
    result 0, EMFILE and ENFILE end it with result 0 as well, and in both
    cases nothing is logged and the worker goes on with the remaining events
    of the pass; every other error is logged as a failed accept, the result
    is -1 and the remaining events of the pass are not handled. *)
Theorem accept_failures (efd sfd : Z) (taken : list accept_answer)
        (a : accept_answer) (oracle : list accept_answer) (w : world) :
  forallb accepted taken = true ->
  accept_res a < 0 ->
  let silent := emit_all (flat_map (accepted_events efd sfd) taken
                           ++ [Accept sfd (accept_res a)]) w in
  let drained :=
    (accept_errno a =? EAGAIN) || (accept_errno a =? EWOULDBLOCK) in
  let exhausted :=
    (accept_errno a =? EMFILE) || (accept_errno a =? ENFILE) in
  (drained = true ->
   epoll_notification efd sfd (taken ++ a :: oracle) w = Some (0, silent))
  /\ (exhausted = true ->
      epoll_notification efd sfd (taken ++ a :: oracle) w = Some (0, silent))
  /\ (drained = false -> exhausted = false ->
      epoll_notification efd sfd (taken ++ a :: oracle) w
      = Some (-1, emit (PrFailedErr "accept") silent))
  /\ count is_log (flat_map (accepted_events efd sfd) taken
                     ++ [Accept sfd (accept_res a)]) = 0%nat
  /\ (forall (e : ready) (evs : list ready),
         readable e = true -> ev_fd e = sfd ->
         ev_accepts e = taken ++ a :: oracle ->
         handle_events efd sfd (e :: evs) w
         = if drained || exhausted
           then handle_events efd sfd evs silent
           else Some (emit (PrFailedErr "accept") silent)).
Proof.
  intros Hall Hneg silent drained exhausted.
  pose proof (notification_ends efd sfd taken a oracle w Hall Hneg) as Hend.
  cbv zeta in Hend. fold silent in Hend.
  rewrite <- !orb_assoc in Hend. rewrite orb_assoc in Hend.
  fold drained exhausted in Hend.
  split; [|split; [|split; [|split]]].
  - intros Hd. now rewrite Hend, Hd.
  - intros He. rewrite Hend, He. now rewrite orb_true_r.
  - intros Hd He. now rewrite Hend, Hd, He.
  - rewrite count_app.
    assert (Htaken : count is_log (flat_map (accepted_events efd sfd) taken)
                     = 0%nat).
    { clear. induction taken as [|b taken IH]; [reflexivity|].
      cbn [flat_map]. rewrite count_app, IH. reflexivity. }
    rewrite Htaken. reflexivity.
  - intros e evs He Hfd Hacc.
    unfold readable in He.
    apply andb_prop in He as [He Hin]. apply andb_prop in He as [Herr Hhup].
    cbn [handle_events].
    rewrite Herr, Hhup. apply negb_true_iff in Hin. rewrite Hin.
    cbn [negb orb]. rewrite Hfd, Z.eqb_refl, Hacc, Hend.
    destruct (drained || exhausted); reflexivity.
Qed.

Lemma accept_failures_witness :
  let a := mkAccept (-1) EMFILE 0 0 0 in
  let taken := [mkAccept 7 0 2 0 0] in
  forallb accepted taken = true
  /\ accept_res a < 0
  /\ epoll_notification 5 4 (taken ++ [a]) no_world
     = Some (0, emit_all (flat_map (accepted_events 5 4) taken
                            ++ [Accept 4 (accept_res a)]) no_world).
Proof.
  intros a taken.
  assert (Hall : forallb accepted taken = true) by reflexivity.
  assert (Hneg : accept_res a < 0) by (cbn; lia).
  split; [exact Hall|]. split; [exact Hneg|].
  exact (proj1 (proj2 (accept_failures 5 4 taken a [] no_world Hall Hneg))
               eq_refl).
Defined.

(** accept fails with EMFILE: the loop ends with result 0 and the only event
    is the accept call itself; nothing is logged.  With EBADF, say, the
    failure is logged. *)
Lemma emfile_is_not_logged :
  epoll_notification 5 4 [mkAccept (-1) EMFILE 0 0 0] no_world
  = Some (0, mkWorld [Accept 4 (-1)] [] [])
  /\ count is_log [Accept 4 (-1)] = 0%nat
  /\ epoll_notification 5 4 [mkAccept (-1) 9 0 0 0] no_world
     = Some (-1, mkWorld [Accept 4 (-1); PrFailedErr "accept"] [] []).
Proof. repeat split. Qed.

(** *** The event loop *)

Section ServerFacts.

Variable o : options.
Variables (instance max_ops ppid : Z).
Variables (efd sfd : Z).

Lemma die_close_facts (rc : Z) (w : world) :
  result (die_close o instance ppid efd sfd rc w) = Some rc
  /\ trace (final (die_close o instance ppid efd sfd rc w))
     = trace w ++ cleanup_events o instance ppid efd sfd.
Proof.
  unfold die_close, die, cleanup_events. split; [reflexivity|].
  destruct (efd =? -1); destruct (sfd =? -1);
    destruct (opt_epoll_domain o =? AF_UNIX);
    cbn; rewrite <- ?app_assoc; reflexivity.
Qed.

(** The loop ends with EXIT_FAILURE only after an epoll_wait that failed with
    an error other than EINTR. *)
Lemma server_loop_failure (oracle : list pass) :
  forall (w : world) (rc : Z),
    result (server_loop o instance max_ops ppid efd sfd oracle w) = Some rc ->
    rc = EXIT_SUCCESS
    \/ (rc = EXIT_FAILURE
        /\ exists p, In p oracle /\ wait_res p < 0 /\ wait_errno p <> EINTR).
Proof.
  induction oracle as [|p oracle IH]; intros w rc; [discriminate|].
  cbn [server_loop].
  destruct (wait_res p <? 0) eqn:Hneg.
  - apply Z.ltb_lt in Hneg.
    destruct (wait_errno p =? EINTR) eqn:Herrno; cbn [negb].
    + rewrite (proj1 (die_close_facts _ _)). intros [= <-]. now left.
    + rewrite (proj1 (die_close_facts _ _)). intros [= <-]. right.
      apply Z.eqb_neq in Herrno.
      split; [reflexivity|]. exists p. split; [now left|]. now split.
  - destruct (handle_events _ _ _ _) as [w'|]; [|discriminate].
    destruct (wait_do_run p && _).
    + intros Hres. destruct (IH w' rc Hres) as [Hok|(Hrc & q & Hin & Hq)].
      * now left.
      * right. split; [exact Hrc|]. exists q. split; [now right|exact Hq].
    + rewrite (proj1 (die_close_facts _ _)). intros [= <-]. now left.
Qed.

(** C3, as the code has it: when epoll_wait fails, the event loop ends there
    and the worker runs its cleanup and exits, with EXIT_SUCCESS if the error
    is EINTR, and with EXIT_FAILURE, after logging the failure, for any other
    error; the worker exits from its loop with EXIT_FAILURE only after such a
    failed wait. *)
Theorem wait_failure (p : pass) (oracle : list pass) (w : world) :
  wait_res p < 0 ->
  let r := server_loop o instance max_ops ppid efd sfd (p :: oracle) w in
  (wait_errno p = EINTR ->
   result r = Some EXIT_SUCCESS
   /\ trace (final r)
      = trace w ++ [EpollWait efd (wait_res p)]
          ++ cleanup_events o instance ppid efd sfd)
  /\ (wait_errno p <> EINTR ->
      result r = Some EXIT_FAILURE
      /\ trace (final r)
         = trace w ++ [EpollWait efd (wait_res p); PrFailedErr "epoll_wait"]
             ++ cleanup_events o instance ppid efd sfd)
  /\ (forall (oracle' : list pass) (w' : world) (rc : Z),
         result (server_loop o instance max_ops ppid efd sfd oracle' w')
         = Some rc ->
         rc = EXIT_SUCCESS
         \/ (rc = EXIT_FAILURE
             /\ exists q,
                 In q oracle' /\ wait_res q < 0 /\ wait_errno q <> EINTR)).
Proof.
  intros Hneg r. subst r. cbn [server_loop]. decide_tests.
  split; [|split].
  - intros Herrno. rewrite Herrno, Z.eqb_refl. cbn [negb].
    destruct (die_close_facts EXIT_SUCCESS
                (emit (EpollWait efd (wait_res p)) w)) as [Hres Htr].
    split; [exact Hres|]. rewrite Htr. cbn. now rewrite <- app_assoc.
  - intros Herrno. apply Z.eqb_neq in Herrno. rewrite Herrno. cbn [negb].
    destruct (die_close_facts EXIT_FAILURE
                (emit (PrFailedErr "epoll_wait")
                   (emit (EpollWait efd (wait_res p)) w))) as [Hres Htr].
    split; [exact Hres|]. rewrite Htr. cbn. now rewrite <- !app_assoc.
  - intros oracle' w' rc. apply server_loop_failure.
Qed.

End ServerFacts.

Lemma wait_failure_witness :
  let o := initial_options 6000 in
  let r := server_loop o 0 0 1234 5 4 [interrupted; quiet] no_world in
  wait_res interrupted < 0
  /\ wait_errno interrupted = EINTR
  /\ result r = Some EXIT_SUCCESS
  /\ trace (final r)
     = trace no_world ++ [EpollWait 5 (wait_res interrupted)]
         ++ cleanup_events o 0 1234 5 4.
Proof.
  intros o r.
  assert (Hneg : wait_res interrupted < 0) by (cbn; lia).
  assert (Herrno : wait_errno interrupted = EINTR) by reflexivity.
  split; [exact Hneg|]. split; [exact Herrno|].
  exact (proj1 (wait_failure o 0 0 1234 5 4 interrupted [quiet] no_world Hneg)
               Herrno).
Defined.

(** An interrupted wait is not a wait without events: after a wait that
    reports no event the server waits again, after an interrupted one it has
    exited, with opt_do_run still set and passes left in the oracle. *)
Lemma eintr_ends_the_server :
  let o := initial_options 6000 in
  let after_interrupt :=
    server_loop o 0 0 1234 5 4 [interrupted; quiet] no_world in
  let after_no_event := server_loop o 0 0 1234 5 4 [quiet; quiet] no_world in
  result after_interrupt = Some EXIT_SUCCESS
  /\ count is_wait (trace (final after_interrupt)) = 1%nat
  /\ result after_no_event = None
  /\ count is_wait (trace (final after_no_event)) = 2%nat.
Proof. vm_compute. repeat split. Qed.

(** * Further properties of the code *)

(** ** The setter of the domain, called several times *)

Lemma set_domain_keeps_port (nm : string) (o : options) :
  opt_epoll_port (snd (fst (stress_set_epoll_domain nm o)))
  = opt_epoll_port o.
Proof.
  unfold stress_set_epoll_domain.
  destruct (find_domain nm domains); reflexivity.
Qed.

Lemma apply_settings_app (names1 names2 : list string) (o : options) :
  apply_settings (names1 ++ names2) o
  = apply_settings names2 (apply_settings names1 o).
Proof. unfold apply_settings. now rewrite fold_left_app. Qed.

Lemma apply_settings_cons (nm : string) (names : list string) (o : options) :
  apply_settings (nm :: names) o
  = apply_settings names (snd (fst (stress_set_epoll_domain nm o))).
Proof. reflexivity. Qed.

Lemma apply_settings_facts (names : list string) :
  forall o : options,
    opt_epoll_port (apply_settings names o) = opt_epoll_port o
    /\ (registered o -> registered (apply_settings names o)).
Proof.
  induction names as [|nm names IH]; intros o; [now split|].
  rewrite apply_settings_cons.
  destruct (IH (snd (fst (stress_set_epoll_domain nm o)))) as [Hport Hreg].
  split.
  - now rewrite Hport, set_domain_keeps_port.
  - intros Ho. now apply Hreg, set_domain_registered.
Qed.

(** X1: whatever names the setter is called with, and however often, the
    domain and the number of servers are those of one row of the table, and
    the port is the one the options started with. *)
Theorem settings_stay_in_table (names : list string) (default_port : Z) :
  registered (apply_settings names (initial_options default_port))
  /\ opt_epoll_port (apply_settings names (initial_options default_port))
     = default_port.
Proof.
  destruct (apply_settings_facts names (initial_options default_port))
    as [Hport Hreg].
  split; [apply Hreg, initial_options_registered|exact Hport].
Qed.

(** X2: of several calls of the setter the last one with a name of the table
    decides: its row is selected whatever was selected before, and a later
    call with an unknown name changes nothing. *)
Theorem last_known_name_wins (names : list string) (nm : string)
        (o : options) :
  (forall d : domain_t,
      find_domain nm domains = Some d ->
      apply_settings (names ++ [nm]) o
      = mkOptions (domain d) (opt_epoll_port o) (dom_max_servers d))
  /\ (find_domain nm domains = None ->
      apply_settings (names ++ [nm]) o = apply_settings names o).
Proof.
  rewrite apply_settings_app, apply_settings_cons.
  change (apply_settings [] ?x) with x.
  unfold stress_set_epoll_domain. split.
  - intros d Hd. rewrite Hd. cbn [fst snd].
    now rewrite (proj1 (apply_settings_facts names o)).
  - intros Hnone. now rewrite Hnone.
Qed.

Lemma last_known_name_wins_witness :
  find_domain "ipv6" domains = Some (mkDomain "ipv6" AF_INET6 4)
  /\ apply_settings (["unix"; "ipv4"; "sctp"] ++ ["ipv6"]) (initial_options 6000)
     = mkOptions AF_INET6 6000 4
  /\ find_domain "sctp" domains = None
  /\ apply_settings (["unix"; "ipv4"] ++ ["sctp"]) (initial_options 6000)
     = apply_settings ["unix"; "ipv4"] (initial_options 6000).
Proof.
  assert (H6 : find_domain "ipv6" domains = Some (mkDomain "ipv6" AF_INET6 4))
    by reflexivity.
  assert (Hs : find_domain "sctp" domains = None) by reflexivity.
  split; [exact H6|]. split.
  - exact (proj1 (last_known_name_wins ["unix"; "ipv4"; "sctp"] "ipv6"
                    (initial_options 6000)) _ H6).
  - split; [exact Hs|].
    exact (proj2 (last_known_name_wins ["unix"; "ipv4"] "sctp"
                    (initial_options 6000)) Hs).
Defined.

(** ** The socket path *)

Lemma to_int_proper (z : Z) :
  Z.to_int z <> Decimal.Pos Decimal.Nil /\ Z.to_int z <> Decimal.Neg Decimal.Nil.
Proof.
  destruct z as [|p|p]; cbn; split; try discriminate;
    intros [= H]; now apply (DecimalPos.Unsigned.to_uint_nonnil p).
Qed.

Lemma decimal_inj (z1 z2 : Z) : decimal z1 = decimal z2 -> z1 = z2.
Proof.
  unfold decimal. intros H.
  apply (f_equal NilZero.int_of_string) in H.
  destruct (to_int_proper z1) as [Hp1 Hn1].
  destruct (to_int_proper z2) as [Hp2 Hn2].
  rewrite !NilZero.isi in H by assumption.
  injection H as H. now apply DecimalZ.to_int_inj.
Qed.

Lemma digits_no_dash (d : Decimal.uint) :
  has_dash (NilEmpty.string_of_uint d) = false.
Proof. induction d; cbn; auto. Qed.

Lemma uint_no_dash (d : Decimal.uint) :
  has_dash (NilZero.string_of_uint d) = false.
Proof.
  destruct d; [reflexivity| ..];
    unfold NilZero.string_of_uint; apply digits_no_dash.
Qed.

Lemma decimal_no_dash (z : Z) : 0 <= z -> has_dash (decimal z) = false.
Proof.
  intros Hz. unfold decimal.
  destruct z as [|p|p]; [reflexivity| |lia].
  cbn [Z.to_int NilZero.string_of_int]. apply uint_no_dash.
Qed.

Lemma has_dash_app (a b : string) :
  has_dash (a ++ String "-" b)%string = true.
Proof.
  induction a as [|c a IH]; cbn; [reflexivity|].
  rewrite IH. apply orb_true_r.
Qed.

(** Two texts joined by a minus sign are told apart by their parts when the
    second parts have no minus sign. *)
Lemma split_at_last_dash (a1 : string) :
  forall a2 b1 b2 : string,
    has_dash b1 = false -> has_dash b2 = false ->
    (a1 ++ String "-" b1)%string = (a2 ++ String "-" b2)%string ->
    a1 = a2 /\ b1 = b2.
Proof.
  induction a1 as [|c a1 IH]; intros [|c2 a2] b1 b2 H1 H2 Heq; cbn in Heq.
  - injection Heq as ->. now split.
  - injection Heq as _ Hb. rewrite Hb, has_dash_app in H1. discriminate.
  - injection Heq as _ Hb. rewrite <- Hb, has_dash_app in H2. discriminate.
  - injection Heq as -> Hrest.
    destruct (IH a2 b1 b2 H1 H2 Hrest) as [-> ->]. now split.
Qed.

(** The socket path as a pair of numbers. *)
Lemma sun_path_parts (ppid1 instance1 ppid2 instance2 : Z) :
  0 <= instance1 -> 0 <= instance2 ->
  sun_path ppid1 instance1 = sun_path ppid2 instance2 ->
  ppid1 = ppid2 /\ instance1 = instance2.
Proof.
  intros H1 H2 Heq. unfold sun_path in Heq.
  cbn [String.append] in Heq.
  repeat (injection Heq as Heq).
  apply split_at_last_dash in Heq; try now apply decimal_no_dash.
  destruct Heq as [Hp Hi].
  split; now apply decimal_inj.
Qed.

(** X3: the socket path determines the parent pid and the instance: two
    different pairs (ppid, instance), with instances of type uint32_t, never
    share a path. *)
Theorem sun_path_inj (ppid1 instance1 ppid2 instance2 : Z) :
  0 <= instance1 -> 0 <= instance2 ->
  (ppid1, instance1) <> (ppid2, instance2) ->
  sun_path ppid1 instance1 <> sun_path ppid2 instance2.
Proof.
  intros H1 H2 Hne Heq. apply Hne.
  destruct (sun_path_parts _ _ _ _ H1 H2 Heq) as [-> ->]. reflexivity.
Qed.

Lemma sun_path_inj_witness :
  0 <= 12 /\ 0 <= 2
  /\ (1234, 12) <> (123, 2)
  /\ sun_path 1234 12 <> sun_path 123 2.
Proof.
  assert (H1 : 0 <= 12) by lia.
  assert (H2 : 0 <= 2) by lia.
  assert (Hne : (1234, 12) <> (123, 2)) by (intros H; discriminate H).
  split; [exact H1|]. split; [exact H2|]. split; [exact Hne|].
  exact (sun_path_inj 1234 12 123 2 H1 H2 Hne).
Defined.

(** ** The payload *)

(** X4: the buffer sent for a counter value is 4096 bytes long, every byte is
    an upper-case letter, and the buffers repeat with period 26. *)
Theorem payload_letters (c : Z) :
  List.length (payload c) = 4096%nat
  /\ Forall (fun b => 65 <= b <= 90) (payload c)
  /\ payload (c + 26) = payload c.
Proof.
  rewrite !payload_byte. split; [apply repeat_length|]. split.
  - apply Forall_forall. intros b Hb. apply repeat_spec in Hb. subst b.
    assert (0 <= c mod 26 < 26) by (apply Z.mod_pos_bound; lia). lia.
  - f_equal. f_equal.
    replace (c + 26) with (c + 1 * 26) by lia.
    now rewrite Z.mod_add by lia.
Qed.

(** ** The client and the socket path *)

Lemma targets_app (t1 t2 : list event) :
  targets (t1 ++ t2) = targets t1 ++ targets t2.
Proof.
  induction t1 as [|e t1 IH]; [reflexivity|].
  destruct e; cbn; now rewrite ?IH.
Qed.

Lemma path_gone (p : string) (ps : list string) :
  existsb (String.eqb p) (paths_without p ps) = false.
Proof.
  unfold paths_without.
  induction ps as [|q ps IH]; [reflexivity|]. cbn [filter].
  destruct (String.eqb q p) eqn:Hq; cbn [negb]; [exact IH|].
  cbn [existsb]. rewrite IH, String.eqb_sym, Hq. reflexivity.
Qed.

Section ClientPaths.

Variable o : options.
Variables (instance max_ops ppid : Z).

(** A pass over the loop body returns -1 if it returns, and touches no
    socket path. *)
Lemma attempt_paths (a : attempt) (s : client_state) :
  paths (cw (snd (client_attempt o instance max_ops ppid a s)))
  = paths (cw s)
  /\ forall rc,
      fst (client_attempt o instance max_ops ppid a s) = Return rc ->
      rc = -1.
Proof.
  unfold client_attempt, sys_timer_create, sys_timer_settime,
    sys_timer_delete, connect_failed.
  destruct (do_run_retry a); cbn [negb]; [|split; [reflexivity|discriminate]].
  destruct (socket_res a <? 0);
    [split; [reflexivity|now intros rc [= <-]]|].
  destruct (timer_create_res a <? 0);
    [split; [reflexivity|now intros rc [= <-]]|].
  destruct (timer_settime_res a <? 0);
    [split; [reflexivity|now intros rc [= <-]]|].
  cbn [port with_world].
  destruct (connect_addr o instance ppid (port s));
    [|split; [reflexivity|now intros rc [= <-]]].
  destruct (timer_delete_res a <? 0).
  { split; [|now intros rc [= <-]].
    cbn. now destruct (timers (cw s)). }
  destruct (connect_res a <? 0).
  - destruct (connect_errno a =? EINTR);
      [|destruct ((connect_errno a =? ECONNREFUSED)
                  || (connect_errno a =? ENOENT))];
      cbn [retries with_retries with_world with_connect_timeouts];
      match goal with |- context [if ?c then _ else _] => destruct c end;
      (split; [cbn; now destruct (timers (cw s))
              |cbn [fst]; intros rc [= <-] || intros rc; try discriminate;
               reflexivity]).
  - destruct (send_res a <? 0).
    + split; [cbn; now destruct (timers (cw s))|discriminate].
    + match goal with |- context [if ?c then _ else _] => destruct c end;
        (split; [cbn; now destruct (timers (cw s))|discriminate]).
Qed.

(** The socket paths at the end of a run of the loop. *)
Lemma loop_paths (oracle : list attempt) :
  forall (fresh : bool) (s : client_state),
    match client_loop o instance max_ops ppid fresh oracle s with
    | Pending s' => paths (cw s') = paths (cw s)
    | Returned rc s' =>
        (rc = -1 /\ paths (cw s') = paths (cw s))
        \/ (rc = EXIT_SUCCESS
            /\ paths (cw s')
               = if opt_epoll_domain o =? AF_UNIX
                 then paths_without (sun_path ppid instance) (paths (cw s))
                 else paths (cw s))
    end.
Proof.
  induction oracle as [|a oracle IH]; intros fresh s; [reflexivity|].
  cbn [client_loop].
  set (s0 := if fresh then loop_head o instance s else s).
  assert (Hp0 : paths (cw s0) = paths (cw s))
    by (subst s0; now destruct fresh).
  destruct (attempt_paths a s0) as [Hpaths Hrc].
  destruct (client_attempt o instance max_ops ppid a s0) as [[| | |rc] s1];
    cbn [fst snd] in Hpaths, Hrc.
  - specialize (IH false s1). rewrite Hpaths, Hp0 in IH. exact IH.
  - specialize (IH true s1). rewrite Hpaths, Hp0 in IH. exact IH.
  - right. split; [reflexivity|]. rewrite <- Hp0, <- Hpaths.
    unfold client_epilogue.
    destruct (opt_epoll_domain o =? AF_UNIX);
      cbn [connect_timeouts with_world];
      destruct (connect_timeouts s1 =? 0); reflexivity.
  - left. split; [now apply Hrc|congruence].
Qed.

(** X5: epoll_client returns EXIT_SUCCESS or -1, never EXIT_FAILURE.  When it
    returns -1 it has removed no socket path; when it returns EXIT_SUCCESS in
    the unix domain its own socket path is gone and the others are left, and
    in the other domains no path is removed. *)
Theorem client_return_and_path (count sigaction_res : Z)
        (oracle : list attempt) (w : world) :
  match epoll_client o instance max_ops ppid count sigaction_res oracle w with
  | Pending s' => paths (cw s') = paths w
  | Returned rc s' =>
      (rc = -1 /\ paths (cw s') = paths w)
      \/ (rc = EXIT_SUCCESS
          /\ paths (cw s')
             = (if opt_epoll_domain o =? AF_UNIX
                then paths_without (sun_path ppid instance) (paths w)
                else paths w)
          /\ (opt_epoll_domain o = AF_UNIX ->
              path_exists (sun_path ppid instance) (cw s') = false))
  end.
Proof.
  unfold epoll_client.
  destruct (sigaction_res <? 0); [left; now split|].
  pose proof (loop_paths oracle true
                (with_world (emit (Sigaction SIGRTMIN sigaction_res))
                            (mkClient count 0 0 0 0 w))) as H.
  destruct (client_loop _ _ _ _ _ _ _) as [rc s'|s']; [|exact H].
  destruct H as [H|[Hrc Hp]]; [now left|right].
  split; [exact Hrc|]. split; [exact Hp|].
  intros Hunix. unfold path_exists. rewrite Hp, Hunix, Z.eqb_refl.
  apply path_gone.
Qed.

End ClientPaths.

(** ** Runs of the client *)

Section ClientRuns.

Variable o : options.
Variables (instance max_ops ppid : Z).
Hypothesis Hreg : registered o.

Lemma registered_servers : 0 < max_servers o < 2 ^ 31.
Proof.
  destruct (registered_cases o Hreg) as [[_ ->]|[[_ ->]|[_ ->]]];
    split; reflexivity.
Qed.

(** Failed attempts within the bound, followed by more of the oracle: the
    retries go to the address of the first attempt. *)
Lemma retries_then (failing : list attempt) :
  forall (rest : list attempt) (s : client_state),
    forallb fails_transiently failing = true ->
    0 <= retries s ->
    retries s + Z.of_nat (List.length failing) <= 100 ->
    exists addr s',
      connect_addr o instance ppid (port s) = Some addr
      /\ client_loop o instance max_ops ppid false (failing ++ rest) s
         = client_loop o instance max_ops ppid false rest s'
      /\ counter s' = counter s
      /\ port s' = port s
      /\ port_counter s' = port_counter s
      /\ count is_connect (trace (cw s'))
         = (count is_connect (trace (cw s)) + List.length failing)%nat
      /\ targets (trace (cw s'))
         = targets (trace (cw s)) ++ repeat addr (List.length failing).
Proof.
  induction failing as [|a failing IH]; intros rest s Hall Hr Hbound.
  - destruct (connect_addr_registered o instance ppid Hreg (port s))
      as [addr Haddr].
    exists addr, s. cbn [app List.length repeat].
    rewrite app_nil_r. repeat split; trivial; lia.
  - cbn [forallb] in Hall. apply andb_prop in Hall as [Ha Hall].
    cbn [List.length] in Hbound. rewrite Nat2Z.inj_succ in Hbound.
    destruct (attempt_fails_transiently o instance max_ops ppid Hreg a s Ha)
      as (addr & s1 & Haddr & Hstep & Hret & Hcnt & Hpc & Hport & _ & _ & Htr).
    rewrite gtb_false in Hstep, Htr by lia.
    destruct (IH rest s1 Hall)
      as (addr' & s' & Haddr' & Hrun & Hcnt' & Hport' & Hpc' & Hcon & Htg);
      [lia|lia|].
    rewrite Hport, Haddr in Haddr'. injection Haddr' as <-.
    exists addr, s'. split; [exact Haddr|].
    cbn [app client_loop]. rewrite Hstep.
    split; [exact Hrun|].
    rewrite Hcon, Htg, Htr, !targets_app. unfold connect_events.
    cbn [targets app List.length repeat].
    rewrite <- !app_assoc. cbn [app].
    repeat split; try congruence. count_events.
Qed.

(** X6: when opt_do_run is cleared while the client is retrying, after up to
    100 failed attempts, the client stops retrying and returns EXIT_SUCCESS:
    the failures are not reported. *)
Theorem shutdown_ends_retrying (failing : list attempt) (stop : attempt)
        (rest : list attempt) (s : client_state) :
  forallb fails_transiently failing = true ->
  Z.of_nat (List.length failing) <= 100 ->
  do_run_retry stop = false ->
  exists s',
    client_loop o instance max_ops ppid true (failing ++ stop :: rest) s
    = Returned EXIT_SUCCESS s'
    /\ counter s' = counter s
    /\ count is_connect (trace (cw s'))
       = (count is_connect (trace (cw s)) + List.length failing)%nat.
Proof.
  intros Hall Hlen Hstop.
  assert (Hleave : forall s0,
             client_attempt o instance max_ops ppid stop s0 = (Leave, s0)).
  { intros s0. unfold client_attempt. now rewrite Hstop. }
  destruct failing as [|a failing].
  - cbn [app client_loop]. rewrite Hleave.
    exists (client_epilogue o instance ppid (loop_head o instance s)).
    destruct (epilogue_facts o instance ppid (loop_head o instance s))
      as (Hc & _ & _ & Htr).
    split; [reflexivity|]. split; [exact Hc|].
    rewrite Htr. cbn [loop_head cw].
    destruct (opt_epoll_domain o =? AF_UNIX);
      destruct (connect_timeouts (loop_head o instance s) =? 0);
      count_events.
  - change ((a :: failing) ++ stop :: rest)
      with (a :: (failing ++ stop :: rest)).
    rewrite loop_fresh.
    change (a :: (failing ++ stop :: rest))
      with ((a :: failing) ++ stop :: rest).
    destruct (retries_then (a :: failing) (stop :: rest)
                (loop_head o instance s) Hall)
      as (addr & s1 & _ & Hrun & Hcnt & _ & _ & Hcon & _);
      try (cbn [retries loop_head]; lia).
    rewrite Hrun. cbn [client_loop]. rewrite Hleave.
    exists (client_epilogue o instance ppid s1).
    destruct (epilogue_facts o instance ppid s1) as (Hc & _ & _ & Htr).
    split; [reflexivity|]. split; [now rewrite Hc, Hcnt|].
    rewrite Htr. cbn [loop_head cw] in Hcon.
    destruct (opt_epoll_domain o =? AF_UNIX);
      destruct (connect_timeouts s1 =? 0);
      rewrite ?app_nil_r, ?count_app, Hcon; count_events.
Qed.

(** X7: the retries of one iteration all connect to the address of its first
    attempt; the round-robin counter does not move while retrying. *)
Theorem retries_keep_target (a : attempt) (failing : list attempt)
        (s : client_state) :
  forallb fails_transiently (a :: failing) = true ->
  Z.of_nat (List.length (a :: failing)) <= 100 ->
  exists addr s',
    connect_addr o instance ppid (port (loop_head o instance s)) = Some addr
    /\ client_loop o instance max_ops ppid true (a :: failing) s = Pending s'
    /\ targets (trace (cw s'))
       = targets (trace (cw s)) ++ repeat addr (List.length (a :: failing))
    /\ port_counter s' = port_counter (loop_head o instance s).
Proof.
  intros Hall Hlen. rewrite loop_fresh.
  destruct (retries_then (a :: failing) [] (loop_head o instance s) Hall)
    as (addr & s1 & Haddr & Hrun & _ & _ & Hpc & _ & Htg);
    try (cbn [retries loop_head]; lia).
  rewrite app_nil_r in Hrun. cbn [client_loop] in Hrun.
  exists addr, s1. repeat split; assumption.
Qed.

(** Successful cycles without a limit: each goes to the next server. *)
Lemma cycles_round_robin (oracle : list attempt) :
  forall s : client_state,
    max_ops = 0 ->
    forallb (fun a => succeeds a && do_run_cond a) oracle = true ->
    0 <= port_counter s < max_servers o ->
    exists s',
      client_loop o instance max_ops ppid true oracle s = Pending s'
      /\ map Some (targets (trace (cw s')))
         = map Some (targets (trace (cw s)))
             ++ map (fun k =>
                       connect_addr o instance ppid
                         (server_port o
                            ((port_counter s + Z.of_nat k) mod max_servers o)
                            instance))
                    (seq 0 (List.length oracle)).
Proof.
  pose proof registered_servers as Hms.
  induction oracle as [|a oracle IH]; intros s Hmax Hall Hpc.
  - exists s. cbn [client_loop List.length seq map]. now rewrite app_nil_r.
  - cbn [forallb] in Hall. apply andb_prop in Hall as [Ha Hall].
    apply andb_prop in Ha as [Ha Hrun].
    rewrite loop_fresh.
    destruct (attempt_succeeds o instance max_ops ppid Hreg a
                (loop_head o instance s) Ha)
      as (addr & s1 & Haddr & Hstep & _ & _ & Hpc1 & _ & _ & _ & Htr).
    destruct (round_robin o instance s Hms Hpc) as [Hnext Hrange].
    cbn [client_loop]. rewrite Hstep, Hrun.
    replace (max_ops =? 0) with true by (now rewrite Hmax).
    cbn [andb orb].
    destruct (IH s1 Hmax Hall) as (s' & Hloop & Htg);
      [now rewrite Hpc1|].
    exists s'. split; [exact Hloop|].
    rewrite Htg, Htr, targets_app, !map_app. unfold connect_events.
    cbn [targets app map loop_head cw List.length seq].
    rewrite <- !app_assoc. cbn [app]. f_equal. f_equal.
    + rewrite Z.add_0_r, Z.mod_small by lia. symmetry. exact Haddr.
    + rewrite <- seq_shift, map_map. apply map_ext. intros k.
      rewrite Hpc1, Hnext. do 2 f_equal.
      rewrite Z.add_mod_idemp_l by lia. f_equal. lia.
Qed.

(** X8: without an operation limit and with every operation succeeding, the
    k-th connect of epoll_client (k = 0, 1, ...) goes to the port that the
    server with child index k mod max_servers binds: successive connections
    cycle through all servers of the instance. *)
Theorem connects_cycle_through_servers (count sigaction_res : Z)
        (oracle : list attempt) (w : world) :
  max_ops = 0 ->
  0 <= sigaction_res ->
  forallb (fun a => succeeds a && do_run_cond a) oracle = true ->
  exists s',
    epoll_client o instance max_ops ppid count sigaction_res oracle w
    = Pending s'
    /\ map Some (targets (trace (cw s')))
       = map Some (targets (trace w))
           ++ map (fun k =>
                     connect_addr o instance ppid
                       (server_port o (Z.of_nat k mod max_servers o) instance))
                  (seq 0 (List.length oracle)).
Proof.
  intros Hmax Hsig Hall. unfold epoll_client.
  replace (sigaction_res <? 0) with false by (symmetry; apply Z.ltb_ge; lia).
  pose proof registered_servers as Hms.
  destruct (cycles_round_robin oracle
              (with_world (emit (Sigaction SIGRTMIN sigaction_res))
                          (mkClient count 0 0 0 0 w)) Hmax Hall)
    as (s' & Hloop & Htg); [cbn; lia|].
  exists s'. split; [exact Hloop|].
  rewrite Htg. cbn [with_world cw trace emit port_counter].
  rewrite targets_app. cbn [targets]. now rewrite app_nil_r.
Qed.

End ClientRuns.

Lemma shutdown_ends_retrying_witness :
  let o := initial_options 6000 in
  let stop := mkAttempt false 0 0 0 0 0 0 0 false in
  forallb fails_transiently (repeat refused 100) = true
  /\ Z.of_nat (List.length (repeat refused 100)) <= 100
  /\ do_run_retry stop = false
  /\ exists s',
      client_loop o 0 0 1234 true (repeat refused 100 ++ stop :: [complete])
                  client_start
      = Returned EXIT_SUCCESS s'
      /\ counter s' = counter client_start
      /\ count is_connect (trace (cw s'))
         = (count is_connect (trace (cw client_start))
            + List.length (repeat refused 100))%nat.
Proof.
  intros o stop.
  assert (Hall : forallb fails_transiently (repeat refused 100) = true)
    by (vm_compute; reflexivity).
  assert (Hlen : Z.of_nat (List.length (repeat refused 100)) <= 100)
    by (vm_compute; discriminate).
  assert (Hstop : do_run_retry stop = false) by reflexivity.
  split; [exact Hall|]. split; [exact Hlen|]. split; [exact Hstop|].
  exact (shutdown_ends_retrying o 0 0 1234 (initial_options_registered 6000)
           (repeat refused 100) stop [complete] client_start Hall Hlen Hstop).
Defined.

Lemma retries_keep_target_witness :
  let o := mkOptions AF_INET 6000 4 in
  forallb fails_transiently [refused; refused; refused] = true
  /\ Z.of_nat (List.length [refused; refused; refused]) <= 100
  /\ exists addr s',
      connect_addr o 2 1234 (port (loop_head o 2 client_start)) = Some addr
      /\ client_loop o 2 0 1234 true [refused; refused; refused] client_start
         = Pending s'
      /\ targets (trace (cw s'))
         = targets (trace (cw client_start))
             ++ repeat addr (List.length [refused; refused; refused])
      /\ port_counter s' = port_counter (loop_head o 2 client_start).
Proof.
  intros o.
  assert (Hreg : registered o).
  { exists (mkDomain "ipv4" AF_INET 4). cbn. intuition. }
  assert (Hall : forallb fails_transiently [refused; refused; refused] = true)
    by reflexivity.
  assert (Hlen : Z.of_nat (List.length [refused; refused; refused]) <= 100)
    by (cbn; lia).
  split; [exact Hall|]. split; [exact Hlen|].
  exact (retries_keep_target o 2 0 1234 Hreg refused [refused; refused]
           client_start Hall Hlen).
Defined.

Lemma connects_cycle_through_servers_witness :
  let o := mkOptions AF_INET 6000 4 in
  (0 : Z) = 0
  /\ 0 <= 0
  /\ forallb (fun a => succeeds a && do_run_cond a) (repeat complete 6) = true
  /\ exists s',
      epoll_client o 2 0 1234 0 0 (repeat complete 6) no_world = Pending s'
      /\ map Some (targets (trace (cw s')))
         = map Some (targets (trace no_world))
             ++ map (fun k =>
                       connect_addr o 2 1234
                         (server_port o (Z.of_nat k mod max_servers o) 2))
                    (seq 0 (List.length (repeat complete 6))).
Proof.
  intros o.
  assert (Hreg : registered o).
  { exists (mkDomain "ipv4" AF_INET 4). cbn. intuition. }
  assert (Hall : forallb (fun a => succeeds a && do_run_cond a)
                         (repeat complete 6) = true) by reflexivity.
  assert (Hsig : 0 <= 0) by lia.
  split; [reflexivity|]. split; [exact Hsig|]. split; [exact Hall|].
  exact (connects_cycle_through_servers o 2 0 1234 Hreg 0 0
           (repeat complete 6) no_world eq_refl Hsig Hall).
Defined.

(** ** The server: reading, accepting, cleaning up *)

Lemma recv_data_reads (fd : Z) (reads : list recv_answer) :
  forall (oracle : list recv_answer) (w : world),
    forallb more_data reads = true ->
    epoll_recv_data fd (reads ++ oracle) w
    = epoll_recv_data fd oracle
        (emit_all (map (fun r => Recv fd (recv_res r)) reads) w).
Proof.
  induction reads as [|r reads IH]; intros oracle w Hall.
  - cbn [app map]. now rewrite emit_all_nil.
  - cbn [forallb] in Hall. apply andb_prop in Hall as [Hr Hall].
    unfold more_data in Hr. apply andb_prop in Hr as [H1 H0].
    apply negb_true_iff in H1, H0.
    cbn [app epoll_recv_data map]. rewrite H1, H0, IH by assumption.
    f_equal. unfold emit, emit_all. cbn [trace paths timers].
    now rewrite <- app_assoc.
Qed.

(** X9: epoll_recv_data reads until recv reports the end of the stream or an
    error.  It closes the descriptor at the end of the stream and on every
    error but EAGAIN, leaves it open on EAGAIN, and makes no other call. *)
Theorem recv_data_drains (fd : Z) (reads : list recv_answer)
        (r : recv_answer) (oracle : list recv_answer) (w : world) :
  forallb more_data reads = true ->
  more_data r = false ->
  epoll_recv_data fd (reads ++ r :: oracle) w
  = Some (emit_all
            (map (fun x => Recv fd (recv_res x)) (reads ++ [r])
               ++ (if (recv_res r =? -1) && (recv_errno r =? EAGAIN)
                   then [] else [Close fd]))
            w).
Proof.
  intros Hall Hr. rewrite recv_data_reads by assumption.
  cbn [epoll_recv_data]. rewrite map_app. cbn [map].
  unfold more_data in Hr.
  destruct (recv_res r =? -1) eqn:H1; cbn [andb negb] in *.
  - destruct (recv_errno r =? EAGAIN); cbn [negb];
      rewrite ?emit_emit_all, ?app_nil_r;
      f_equal; unfold emit, emit_all; cbn [trace paths timers];
      now rewrite <- ?app_assoc.
  - apply negb_false_iff in Hr. rewrite Hr, emit_emit_all.
    f_equal. unfold emit, emit_all. cbn [trace paths timers].
    now rewrite <- !app_assoc.
Qed.

Lemma recv_data_drains_witness :
  let reads := [mkRecv 8192 0; mkRecv 100 0] in
  forallb more_data reads = true
  /\ more_data (mkRecv (-1) EAGAIN) = false
  /\ epoll_recv_data 7 (reads ++ [mkRecv (-1) EAGAIN]) no_world
     = Some (emit_all
               (map (fun x => Recv 7 (recv_res x))
                    (reads ++ [mkRecv (-1) EAGAIN])
                  ++ (if (recv_res (mkRecv (-1) EAGAIN) =? -1)
                         && (recv_errno (mkRecv (-1) EAGAIN) =? EAGAIN)
                      then [] else [Close 7]))
               no_world).
Proof.
  intros reads.
  assert (Hall : forallb more_data reads = true) by reflexivity.
  assert (Hr : more_data (mkRecv (-1) EAGAIN) = false) by reflexivity.
  split; [exact Hall|]. split; [exact Hr|].
  exact (recv_data_drains 7 reads (mkRecv (-1) EAGAIN) [] no_world Hall Hr).
Defined.

(** Counts the accepted, registered and closed descriptors of a trace. *)
Ltac count_descriptors :=
  rewrite ?count_app; unfold count;
  cbn [filter List.length is_accepted is_registered is_close app];
  repeat match goal with
         | |- context [0 <=? ?x] =>
             first [ replace (0 <=? x) with true
                       by (symmetry; apply Z.leb_le; lia)
                   | replace (0 <=? x) with false
                       by (symmetry; apply Z.leb_gt; lia) ]
         end;
  cbn [filter List.length app]; try lia.

(** X10: the accept loop leaks no descriptor: when it returns, every
    descriptor that accept handed out has either been registered with epoll
    or been closed. *)
Theorem accept_loop_keeps_track (efd sfd : Z) (oracle : list accept_answer) :
  forall (w w' : world) (r : Z),
    epoll_notification efd sfd oracle w = Some (r, w') ->
    exists es,
      trace w' = trace w ++ es
      /\ count is_accepted es
         = (count is_registered es + count is_close es)%nat.
Proof.
  induction oracle as [|a oracle IH]; intros w w' r; [discriminate|].
  cbn [epoll_notification].
  unfold epoll_set_fd_nonblock, epoll_ctl_add.
  destruct (Z.ltb_spec (accept_res a) 0) as [Hacc|Hacc].
  - destruct ((accept_errno a =? EAGAIN) || (accept_errno a =? EWOULDBLOCK));
      [|destruct ((accept_errno a =? EMFILE) || (accept_errno a =? ENFILE))];
      intros [= <- <-]; cbn [trace emit];
      rewrite <- ?app_assoc; eexists; (split; [reflexivity|]);
      count_descriptors.
  - destruct (Z.ltb_spec (getfl_res a) 0) as [Hget|Hget]; cbn [Z.ltb].
    { intros [= <- <-]. cbn [trace emit]. rewrite <- !app_assoc.
      eexists; (split; [reflexivity|]). count_descriptors. }
    destruct (Z.ltb_spec (setfl_res a) 0) as [Hset|Hset]; cbn [Z.ltb].
    { intros [= <- <-]. cbn [trace emit]. rewrite <- !app_assoc.
      eexists; (split; [reflexivity|]). count_descriptors. }
    destruct (Z.ltb_spec (ctl_res a) 0) as [Hctl|Hctl]; cbn [Z.ltb].
    { intros [= <- <-]. cbn [trace emit]. rewrite <- !app_assoc.
      eexists; (split; [reflexivity|]). count_descriptors. }
    intros Hrest. apply IH in Hrest as (es & Htr & Hcount).
    cbn [trace emit] in Htr. rewrite <- !app_assoc in Htr. cbn [app] in Htr.
    eexists; (split; [exact Htr|]).
    change (?a :: ?b :: ?c :: ?d :: es) with ([a; b; c; d] ++ es).
    rewrite !(count_app _ _ es), Hcount. count_descriptors.
Qed.

Lemma accept_loop_keeps_track_witness :
  let oracle := [mkAccept 7 0 2 0 0; mkAccept 8 0 2 (-1) 0;
                 mkAccept (-1) EAGAIN 0 0 0] in
  let w' := emit_all [Accept 4 7; FcntlGetfl 7 2; FcntlSetfl 7 0;
                      EpollCtlAdd 5 7 0; Accept 4 8; FcntlGetfl 8 2;
                      FcntlSetfl 8 (-1);
                      PrFailedErr "setting socket to non-blocking"; Close 8]
                     no_world in
  epoll_notification 5 4 oracle no_world = Some (-1, w')
  /\ exists es,
      trace w' = trace no_world ++ es
      /\ count is_accepted es
         = (count is_registered es + count is_close es)%nat.
Proof.
  intros oracle w'.
  assert (H : epoll_notification 5 4 oracle no_world = Some (-1, w'))
    by reflexivity.
  split; [exact H|].
  exact (accept_loop_keeps_track 5 4 oracle no_world w' (-1) H).
Defined.

(** *** What the server adds to the trace *)

Lemma adds_refl (p : event -> bool) (w : world) : adds p w w.
Proof. exists []. now rewrite app_nil_r. Qed.

Lemma adds_trans (p : event -> bool) (w1 w2 w3 : world) :
  adds p w1 w2 -> adds p w2 w3 -> adds p w1 w3.
Proof.
  intros (es1 & H1 & Hp1) (es2 & H2 & Hp2). exists (es1 ++ es2).
  rewrite H2, H1, <- app_assoc, forallb_app, Hp1, Hp2. now split.
Qed.

Lemma adds_emit (p : event -> bool) (e : event) (w1 w2 : world) :
  p e = true -> adds p w1 w2 -> adds p w1 (emit e w2).
Proof.
  intros He H. apply adds_trans with w2; [exact H|].
  exists [e]. cbn. now rewrite He.
Qed.

Lemma adds_same_trace (p : event -> bool) (w1 w2 w3 : world) :
  trace w3 = trace w2 -> adds p w1 w2 -> adds p w1 w3.
Proof. intros Ht (es & H & Hp). exists es. now rewrite Ht. Qed.

(** Closes goals of the form [adds passive w (emit .. (emit .. w'))]. *)
Ltac adds_events :=
  repeat first [ assumption
               | apply adds_refl
               | apply adds_emit; [reflexivity|]
               | eapply adds_same_trace; [reflexivity|] ].

Lemma recv_data_passive (fd : Z) (oracle : list recv_answer) :
  forall w0 w w',
    adds passive w0 w ->
    epoll_recv_data fd oracle w = Some w' -> adds passive w0 w'.
Proof.
  induction oracle as [|r oracle IH]; intros w0 w w' Hw; [discriminate|].
  cbn [epoll_recv_data].
  destruct (recv_res r =? -1).
  - destruct (recv_errno r =? EAGAIN); cbn [negb]; intros [= <-]; adds_events.
  - destruct (recv_res r =? 0); [intros [= <-]; adds_events|].
    apply IH. adds_events.
Qed.

Lemma notification_passive (efd sfd : Z) (oracle : list accept_answer) :
  forall w0 w w' r,
    adds passive w0 w ->
    epoll_notification efd sfd oracle w = Some (r, w') -> adds passive w0 w'.
Proof.
  induction oracle as [|a oracle IH]; intros w0 w w' r Hw; [discriminate|].
  cbn [epoll_notification]. unfold epoll_set_fd_nonblock, epoll_ctl_add.
  destruct (accept_res a <? 0).
  - destruct ((accept_errno a =? EAGAIN) || (accept_errno a =? EWOULDBLOCK));
      [|destruct ((accept_errno a =? EMFILE) || (accept_errno a =? ENFILE))];
      intros [= <- <-]; adds_events.
  - destruct (getfl_res a <? 0); cbn [Z.ltb];
      [intros [= <- <-]; adds_events|].
    destruct (setfl_res a <? 0); cbn [Z.ltb];
      [intros [= <- <-]; adds_events|].
    destruct (ctl_res a <? 0); cbn [Z.ltb];
      [intros [= <- <-]; adds_events|].
    apply IH. adds_events.
Qed.

Lemma handle_events_passive (efd sfd : Z) (evs : list ready) :
  forall w0 w w',
    adds passive w0 w ->
    handle_events efd sfd evs w = Some w' -> adds passive w0 w'.
Proof.
  induction evs as [|e evs IH]; intros w0 w w' Hw.
  - now intros [= <-].
  - cbn [handle_events].
    destruct (negb (Z.land (ev_events e) EPOLLERR =? 0)
              || negb (Z.land (ev_events e) EPOLLHUP =? 0)
              || (Z.land (ev_events e) EPOLLIN =? 0)).
    + apply IH. adds_events.
    + destruct (sfd =? ev_fd e).
      * destruct (epoll_notification efd sfd (ev_accepts e) w)
          as [[r w1]|] eqn:Hn; [|discriminate].
        pose proof (notification_passive _ _ _ _ _ _ _ Hw Hn) as Hw1.
        destruct (r <? 0); [now intros [= <-]|]. now apply IH.
      * destruct (epoll_recv_data (ev_fd e) (ev_recvs e) w) as [w1|] eqn:Hr;
          [|discriminate].
        apply IH. now apply recv_data_passive with (ev_fd e) (ev_recvs e) w.
Qed.

Section ServerRuns.

Variable o : options.
Variables (child instance max_ops ppid parent : Z).

Lemma die_passive (rc : Z) (w0 w : world) :
  adds passive w0 w -> adds passive w0 (final (die o instance ppid rc w)).
Proof.
  intros Hw. unfold die, sys_unlink. cbn [final].
  destruct (opt_epoll_domain o =? AF_UNIX); adds_events.
Qed.

Lemma die_close_passive (efd sfd rc : Z) (w0 w : world) :
  adds passive w0 w ->
  adds passive w0 (final (die_close o instance ppid efd sfd rc w)).
Proof.
  intros Hw. unfold die_close. apply die_passive.
  destruct (efd =? -1); destruct (sfd =? -1); cbn [negb]; adds_events.
Qed.

Lemma server_loop_passive (efd sfd : Z) (oracle : list pass) :
  forall w0 w,
    adds passive w0 w ->
    adds passive w0
         (final (server_loop o instance max_ops ppid efd sfd oracle w)).
Proof.
  induction oracle as [|p oracle IH]; intros w0 w Hw; [exact Hw|].
  cbn [server_loop].
  destruct (wait_res p <? 0).
  - destruct (wait_errno p =? EINTR); cbn [negb];
      apply die_close_passive; adds_events.
  - destruct (handle_events _ _ _ _) as [w1|] eqn:Hh; [|cbn [final]; adds_events].
    assert (Hw1 : adds passive w0 w1).
    { eapply handle_events_passive; [|exact Hh]. adds_events. }
    destruct (wait_do_run p && _); [now apply IH|].
    now apply die_close_passive.
Qed.

(** X11: the server never sends and never connects: whatever the answers to
    its calls, a run of epoll_server adds no send and no connect call to the
    trace. *)
Theorem server_never_sends (su : setup) (oracle : list pass) (w : world) :
  let w' := final (epoll_server o child instance max_ops ppid parent
                                su oracle w) in
  sent (trace w') = sent (trace w)
  /\ targets (trace w') = targets (trace w).
Proof.
  intros w'.
  assert (H : adds passive w w').
  { subst w'. unfold epoll_server, epoll_set_fd_nonblock, epoll_ctl_add.
    destruct (su_sigaction su <? 0); [apply die_passive; adds_events|].
    destruct (su_socket su <? 0); [apply die_passive; adds_events|].
    destruct (su_setsockopt su <? 0); [apply die_close_passive; adds_events|].
    destruct (bind_addr o instance ppid (server_port o child instance))
      as [addr|]; [|cbn [final]; adds_events].
    destruct (su_bind su <? 0); [apply die_close_passive; adds_events|].
    assert (Hb : adds passive w
                   (match addr with
                    | SockaddrUn p =>
                        path_created p
                          (emit (Bind (su_socket su) addr (su_bind su))
                             (emit (Setsockopt (su_socket su)
                                      (su_setsockopt su))
                                (emit (Socket (opt_epoll_domain o)
                                         (su_socket su))
                                   (emit (Sigaction SIGALRM (su_sigaction su))
                                      w))))
                    | _ =>
                        emit (Bind (su_socket su) addr (su_bind su))
                          (emit (Setsockopt (su_socket su) (su_setsockopt su))
                             (emit (Socket (opt_epoll_domain o) (su_socket su))
                                (emit (Sigaction SIGALRM (su_sigaction su))
                                   w)))
                    end)).
    { destruct addr; adds_events. }
    destruct (su_getfl su <? 0); cbn [Z.ltb];
      [apply die_close_passive; adds_events|].
    destruct (su_setfl su <? 0); cbn [Z.ltb];
      [apply die_close_passive; adds_events|].
    destruct (su_listen su <? 0); [apply die_close_passive; adds_events|].
    destruct (su_epoll_create1 su <? 0);
      [apply die_close_passive; adds_events|].
    destruct (su_epoll_ctl su <? 0); cbn [Z.ltb];
      [apply die_close_passive; adds_events|].
    destruct (su_calloc su); cbn [negb];
      [|apply die_close_passive; adds_events].
    apply server_loop_passive. adds_events. }
  destruct H as (es & Htr & Hes). rewrite Htr, sent_app, targets_app.
  assert (Hnone : sent es = [] /\ targets es = []).
  { clear Htr. induction es as [|e es IH]; [now split|].
    cbn [forallb] in Hes. apply andb_prop in Hes as [He Hes].
    destruct (IH Hes) as [IHs IHt].
    destruct e; try discriminate He; cbn [sent targets]; now split. }
  destruct Hnone as [-> ->]. now rewrite !app_nil_r.
Qed.

End ServerRuns.

(** *** How the server ends *)

Section ServerExit.

Variable o : options.
Variables (child instance max_ops ppid parent : Z).

Lemma die_facts (rc : Z) (w : world) :
  result (die o instance ppid rc w) = Some rc
  /\ trace (final (die o instance ppid rc w))
     = trace w
         ++ (if opt_epoll_domain o =? AF_UNIX
             then [Unlink (sun_path ppid instance)] else [])
         ++ [Free].
Proof.
  unfold die. split; [reflexivity|].
  destruct (opt_epoll_domain o =? AF_UNIX); cbn;
    now rewrite <- ?app_assoc.
Qed.

Lemma die_unlinks (rc : Z) (w : world) :
  opt_epoll_domain o = AF_UNIX ->
  path_exists (sun_path ppid instance) (final (die o instance ppid rc w))
  = false.
Proof.
  intros Hunix. unfold die. rewrite Hunix, Z.eqb_refl.
  unfold path_exists. cbn [final emit sys_unlink path_removed paths].
  apply path_gone.
Qed.

Lemma die_close_unlinks (efd sfd rc : Z) (w : world) :
  opt_epoll_domain o = AF_UNIX ->
  path_exists (sun_path ppid instance)
              (final (die_close o instance ppid efd sfd rc w))
  = false.
Proof. intros Hunix. unfold die_close. now apply die_unlinks. Qed.

Lemma server_loop_exit (efd sfd : Z) (oracle : list pass) :
  forall (w : world) (rc : Z),
    result (server_loop o instance max_ops ppid efd sfd oracle w) = Some rc ->
    (exists tr,
        trace (final (server_loop o instance max_ops ppid efd sfd oracle w))
        = tr ++ cleanup_events o instance ppid efd sfd)
    /\ (opt_epoll_domain o = AF_UNIX ->
        path_exists (sun_path ppid instance)
          (final (server_loop o instance max_ops ppid efd sfd oracle w))
        = false).
Proof.
  induction oracle as [|p oracle IH]; intros w rc; [discriminate|].
  cbn [server_loop].
  destruct (wait_res p <? 0).
  - destruct (wait_errno p =? EINTR); cbn [negb]; intros _;
      (split; [eexists; apply die_close_facts|apply die_close_unlinks]).
  - destruct (handle_events _ _ _ _) as [w1|]; [|discriminate].
    destruct (wait_do_run p && _); [apply IH|].
    intros _.
    split; [eexists; apply die_close_facts|apply die_close_unlinks].
Qed.

Lemma cleanup_has_no_wait (efd sfd : Z) :
  count is_wait (cleanup_events o instance ppid efd sfd) = 0%nat.
Proof.
  unfold cleanup_events.
  destruct (efd =? -1); destruct (sfd =? -1);
    destruct (opt_epoll_domain o =? AF_UNIX); reflexivity.
Qed.

(** Evaluates the tests on the results of the two helpers. *)
Ltac settle :=
  change (-1 <? 0) with true; change (0 <? 0) with false; cbv iota.

(** Decides the result and counts the waits of a run that ends in the
    setup. *)
Ltac setup_ends :=
  split;
  [ first [ apply die_facts | apply die_close_facts ]
  | first [ rewrite (proj2 (die_facts _ _))
          | rewrite (proj2 (die_close_facts _ _ _ _ _ _ _)) ];
    cbn [trace emit path_created]; rewrite !count_app, ?cleanup_has_no_wait;
    unfold count; cbn [filter is_wait List.length app];
    try (destruct (opt_epoll_domain o =? AF_UNIX);
         cbn [filter is_wait List.length app]);
    lia ].

(** X12: when one of the calls before the event loop fails (sigaction,
    socket, setsockopt, bind, fcntl, listen, epoll_create1, epoll_ctl or
    calloc), the worker exits with EXIT_FAILURE and has never called
    epoll_wait. *)
Theorem setup_failure_exits (su : setup) (oracle : list pass) (w : world) :
  setup_ok su = false ->
  let r := epoll_server o child instance max_ops ppid parent su oracle w in
  result r = Some EXIT_FAILURE
  /\ count is_wait (trace (final r)) = count is_wait (trace w).
Proof.
  intros Hsu r. subst r. unfold setup_ok in Hsu.
  rewrite !Z.leb_antisym in Hsu.
  unfold epoll_server, epoll_set_fd_nonblock, epoll_ctl_add.
  destruct (su_sigaction su <? 0); [setup_ends|].
  destruct (su_socket su <? 0); [setup_ends|].
  destruct (su_setsockopt su <? 0); [setup_ends|].
  destruct (bind_addr o instance ppid (server_port o child instance))
    as [addr|].
  2:{ split; [reflexivity|]. cbn [final trace emit].
      rewrite !count_app. unfold count.
      cbn [filter is_wait List.length app]. lia. }
  destruct (su_bind su <? 0); [setup_ends|].
  destruct (su_getfl su <? 0); settle; [destruct addr; setup_ends|].
  destruct (su_setfl su <? 0); settle; [destruct addr; setup_ends|].
  destruct (su_listen su <? 0); [destruct addr; setup_ends|].
  destruct (su_epoll_create1 su <? 0); [destruct addr; setup_ends|].
  destruct (su_epoll_ctl su <? 0); settle; [destruct addr; setup_ends|].
  destruct (su_calloc su); [cbn in Hsu; discriminate Hsu|].
  cbn [negb]. destruct addr; setup_ends.
Qed.

Lemma bind_addr_unix (p : Z) :
  opt_epoll_domain o = AF_UNIX ->
  bind_addr o instance ppid p = Some (SockaddrUn (sun_path ppid instance)).
Proof. intros Hunix. unfold bind_addr. now rewrite Hunix. Qed.

(** X13: in the unix domain the server removes its socket path on every
    exit: after a failed setup call, after a failed wait, and at the end of
    the loop alike, the path does not exist when the worker has exited. *)
Theorem server_unlinks_on_exit (su : setup) (oracle : list pass) (w : world)
        (rc : Z) :
  opt_epoll_domain o = AF_UNIX ->
  result (epoll_server o child instance max_ops ppid parent su oracle w)
  = Some rc ->
  path_exists (sun_path ppid instance)
    (final (epoll_server o child instance max_ops ppid parent su oracle w))
  = false.
Proof.
  intros Hunix. unfold epoll_server, epoll_set_fd_nonblock, epoll_ctl_add.
  rewrite bind_addr_unix by assumption.
  destruct (su_sigaction su <? 0); [intros _; now apply die_unlinks|].
  destruct (su_socket su <? 0); [intros _; now apply die_unlinks|].
  destruct (su_setsockopt su <? 0); [intros _; now apply die_close_unlinks|].
  destruct (su_bind su <? 0); [intros _; now apply die_close_unlinks|].
  destruct (su_getfl su <? 0); settle;
    [intros _; now apply die_close_unlinks|].
  destruct (su_setfl su <? 0); settle;
    [intros _; now apply die_close_unlinks|].
  destruct (su_listen su <? 0); [intros _; now apply die_close_unlinks|].
  destruct (su_epoll_create1 su <? 0);
    [intros _; now apply die_close_unlinks|].
  destruct (su_epoll_ctl su <? 0); settle;
    [intros _; now apply die_close_unlinks|].
  destruct (su_calloc su); cbn [negb];
    [|intros _; now apply die_close_unlinks].
  intros Hres. now apply (server_loop_exit _ _ _ _ _ Hres).
Qed.

(** X14: once the server has its listening socket, every exit goes through
    the cleanup with the descriptors the setup left in [efd] and [sfd]: the
    trace ends with the close of the epoll descriptor when epoll_create1 was
    called and did not return -1 (and with no such close when the setup
    failed before that call), the close of the listening socket, the unlink
    of the socket path in the unix domain, and free. *)
Theorem server_cleans_up (su : setup) (oracle : list pass) (w : world)
        (rc : Z) :
  registered o ->
  0 <= su_sigaction su ->
  0 <= su_socket su ->
  result (epoll_server o child instance max_ops ppid parent su oracle w)
  = Some rc ->
  exists tr,
    trace (final (epoll_server o child instance max_ops ppid parent
                               su oracle w))
    = tr ++ (if exit_efd su =? -1 then [] else [Close (exit_efd su)])
         ++ [Close (su_socket su)]
         ++ (if opt_epoll_domain o =? AF_UNIX
             then [Unlink (sun_path ppid instance)] else [])
         ++ [Free].
Proof.
  intros Hreg Hsig Hsock.
  assert (Haddr : exists addr,
             bind_addr o instance ppid (server_port o child instance)
             = Some addr).
  { unfold bind_addr.
    destruct (registered_cases o Hreg) as [[-> _]|[[-> _]|[-> _]]];
      cbn; eauto. }
  destruct Haddr as [addr Haddr].
  assert (Hend : forall efd w0,
             exists tr,
               trace (final (die_close o instance ppid efd (su_socket su)
                                       EXIT_FAILURE w0))
               = tr ++ (if efd =? -1 then [] else [Close efd])
                    ++ [Close (su_socket su)]
                    ++ (if opt_epoll_domain o =? AF_UNIX
                        then [Unlink (sun_path ppid instance)] else [])
                    ++ [Free]).
  { intros efd w0. exists (trace w0).
    rewrite (proj2 (die_close_facts _ _ _ _ _ _ _)). unfold cleanup_events.
    replace (su_socket su =? -1) with false
      by (symmetry; apply Z.eqb_neq; lia).
    reflexivity. }
  unfold exit_efd. rewrite !Z.leb_antisym.
  unfold epoll_server, epoll_set_fd_nonblock, epoll_ctl_add.
  rewrite Haddr. decide_tests.
  destruct (su_setsockopt su <? 0); cbn [negb andb];
    [intros _; apply Hend|].
  destruct (su_bind su <? 0); cbn [negb andb]; [intros _; apply Hend|].
  destruct (su_getfl su <? 0); cbn [negb andb]; settle;
    [intros _; apply Hend|].
  destruct (su_setfl su <? 0); cbn [negb andb]; settle;
    [intros _; apply Hend|].
  destruct (su_listen su <? 0); cbn [negb andb]; [intros _; apply Hend|].
  destruct (su_epoll_create1 su <? 0); [intros _; apply Hend|].
  destruct (su_epoll_ctl su <? 0); settle; [intros _; apply Hend|].
  destruct (su_calloc su); cbn [negb]; [|intros _; apply Hend].
  intros Hres.
  destruct (proj1 (server_loop_exit _ _ _ _ _ Hres)) as [tr Htr].
  exists tr. rewrite Htr. unfold cleanup_events.
  replace (su_socket su =? -1) with false
    by (symmetry; apply Z.eqb_neq; lia).
  reflexivity.
Qed.

(** X15: a server whose waits time out without events keeps waiting as long
    as opt_do_run is set and the operation limit, if there is one, is not
    reached; the first pass that finds opt_do_run cleared or the counter at
    the limit ends the worker with EXIT_SUCCESS. *)
Theorem idle_server_stops (efd sfd : Z) (idle : list pass) (last : pass)
        (rest : list pass) :
  forall w : world,
    forallb (fun p => (wait_res p =? 0) && keeps_running max_ops p) idle
    = true ->
    wait_res last = 0 ->
    keeps_running max_ops last = false ->
    let r := server_loop o instance max_ops ppid efd sfd
                         (idle ++ last :: rest) w in
    result r = Some EXIT_SUCCESS
    /\ count is_wait (trace (final r))
       = (count is_wait (trace w) + List.length idle + 1)%nat.
Proof.
  induction idle as [|p idle IH]; intros w Hidle Hlast Hstop r; subst r.
  - cbn [app server_loop]. rewrite Hlast.
    change (0 <? 0) with false. change (Z.to_nat 0) with 0%nat.
    cbn [firstn handle_events]. unfold keeps_running in Hstop.
    rewrite Hstop.
    destruct (die_close_facts o instance ppid efd sfd EXIT_SUCCESS
                (emit (EpollWait efd 0) w)) as [Hres Htr].
    split; [exact Hres|]. rewrite Htr. cbn [trace emit].
    rewrite !count_app, cleanup_has_no_wait. cbn. lia.
  - cbn [forallb] in Hidle. apply andb_prop in Hidle as [Hp Hidle].
    apply andb_prop in Hp as [Hzero Hrun]. apply Z.eqb_eq in Hzero.
    cbn [app server_loop]. rewrite Hzero.
    change (0 <? 0) with false. change (Z.to_nat 0) with 0%nat.
    cbn [firstn handle_events]. unfold keeps_running in Hrun.
    rewrite Hrun.
    destruct (IH (emit (EpollWait efd 0) w) Hidle Hlast Hstop)
      as [Hres Hcount].
    split; [exact Hres|]. rewrite Hcount. cbn [trace emit List.length].
    rewrite count_app. cbn. lia.
Qed.

End ServerExit.

Lemma setup_failure_exits_witness :
  let su := mkSetup 0 4 0 0 2 0 (-1) 5 0 true in
  let r := epoll_server (initial_options 6000) 0 0 0 1234 1000 su
                        [quiet] no_world in
  setup_ok su = false
  /\ result r = Some EXIT_FAILURE
  /\ count is_wait (trace (final r)) = count is_wait (trace no_world).
Proof.
  intros su r.
  assert (Hsu : setup_ok su = false) by reflexivity.
  split; [exact Hsu|].
  exact (setup_failure_exits (initial_options 6000) 0 0 0 1234 1000 su
           [quiet] no_world Hsu).
Defined.

Lemma server_unlinks_on_exit_witness :
  let o := initial_options 6000 in
  let su := mkSetup 0 4 0 0 2 0 0 5 0 true in
  let r := epoll_server o 0 0 0 1234 1000 su [quiet; interrupted] no_world in
  opt_epoll_domain o = AF_UNIX
  /\ result r = Some EXIT_SUCCESS
  /\ path_exists (sun_path 1234 0) (final r) = false.
Proof.
  intros o su r.
  assert (Hunix : opt_epoll_domain o = AF_UNIX) by reflexivity.
  assert (Hres : result r = Some EXIT_SUCCESS) by reflexivity.
  split; [exact Hunix|]. split; [exact Hres|].
  exact (server_unlinks_on_exit o 0 0 0 1234 1000 su [quiet; interrupted]
           no_world EXIT_SUCCESS Hunix Hres).
Defined.

Lemma server_cleans_up_witness :
  let o := initial_options 6000 in
  let su := mkSetup 0 4 0 0 2 0 0 5 (-1) true in
  let r := epoll_server o 0 0 0 1234 1000 su [quiet] no_world in
  0 <= su_sigaction su
  /\ 0 <= su_socket su
  /\ result r = Some EXIT_FAILURE
  /\ exists tr,
      trace (final r)
      = tr ++ (if exit_efd su =? -1 then [] else [Close (exit_efd su)])
           ++ [Close (su_socket su)]
           ++ (if opt_epoll_domain o =? AF_UNIX
               then [Unlink (sun_path 1234 0)] else [])
           ++ [Free].
Proof.
  intros o su r.
  assert (Hsig : 0 <= su_sigaction su) by (cbn; lia).
  assert (Hsock : 0 <= su_socket su) by (cbn; lia).
  assert (Hres : result r = Some EXIT_FAILURE) by reflexivity.
  split; [exact Hsig|]. split; [exact Hsock|]. split; [exact Hres|].
  exact (server_cleans_up o 0 0 0 1234 1000 su [quiet] no_world EXIT_FAILURE
           (initial_options_registered 6000) Hsig Hsock Hres).
Defined.

Lemma idle_server_stops_witness :
  let o := initial_options 6000 in
  let stop := mkPass 0 0 [] false 0 in
  let r := server_loop o 0 0 1234 5 4 ([quiet; quiet] ++ stop :: [quiet])
                       no_world in
  forallb (fun p => (wait_res p =? 0) && keeps_running 0 p) [quiet; quiet]
  = true
  /\ wait_res stop = 0
  /\ keeps_running 0 stop = false
  /\ result r = Some EXIT_SUCCESS
  /\ count is_wait (trace (final r))
     = (count is_wait (trace no_world) + List.length [quiet; quiet] + 1)%nat.
Proof.
  intros o stop r.
  assert (Hidle : forallb (fun p => (wait_res p =? 0) && keeps_running 0 p)
                          [quiet; quiet] = true) by reflexivity.
  assert (Hzero : wait_res stop = 0) by reflexivity.
  assert (Hstop : keeps_running 0 stop = false) by reflexivity.
  split; [exact Hidle|]. split; [exact Hzero|]. split; [exact Hstop|].
  exact (idle_server_stops o 0 0 1234 5 4 [quiet; quiet] stop [quiet]
           no_world Hidle Hzero Hstop).
Defined.

(** ** The orchestrator: forking and reaping *)

Section Reaping.

Variable o : options.
Variables (instance max_ops ppid : Z).
Variable fork_res : Z -> Z.
Variable waitpid_res : Z -> Z.

Lemma counts_from_length (c : Z) (n : nat) :
  List.length (counts_from c n) = n.
Proof. unfold counts_from. now rewrite length_map, length_seq. Qed.

Lemma counts_from_app (a b : nat) :
  forall c : Z,
    counts_from c (a + b)
    = counts_from c a ++ counts_from (c + Z.of_nat a) b.
Proof.
  induction a as [|a IH]; intros c.
  - cbn [Nat.add Z.of_nat]. now rewrite Z.add_0_r.
  - cbn [Nat.add]. rewrite !counts_from_S, IH. cbn [app].
    do 3 f_equal. lia.
Qed.

(** Every fork succeeds: the loop writes the pids in order. *)
Lemma spawn_all (n : nat) :
  forall (i : Z) (pids : list Z) (w : world),
    (forall j, i <= j < i + Z.of_nat n -> 0 <= fork_res j) ->
    spawn_loop fork_res n i pids w
    = (true, pids ++ map fork_res (counts_from i n),
       emit_all (fork_events fork_res i n) w).
Proof.
  induction n as [|n IH]; intros i pids w Hok.
  - cbn [spawn_loop]. unfold fork_events, counts_from. cbn [seq map].
    now rewrite app_nil_r, emit_all_nil.
  - cbn [spawn_loop]. unfold epoll_spawn.
    assert (Hi : 0 <= fork_res i) by (apply Hok; lia).
    replace (fork_res i <? 0) with false by (symmetry; apply Z.ltb_ge; lia).
    replace (fork_res i <? 0) with false by (symmetry; apply Z.ltb_ge; lia).
    rewrite IH by (intros j Hj; apply Hok; lia).
    unfold fork_events. rewrite counts_from_S. cbn [map].
    f_equal; [f_equal; now rewrite <- app_assoc|].
    unfold emit, emit_all. cbn [trace paths timers].
    now rewrite <- app_assoc.
Qed.

(** The fork for child [i + k] fails after [k] forks that succeeded. *)
Lemma spawn_fails (k : nat) :
  forall (n : nat) (i : Z) (pids : list Z) (w : world),
    (k < n)%nat ->
    (forall j, i <= j < i + Z.of_nat k -> 0 <= fork_res j) ->
    fork_res (i + Z.of_nat k) < 0 ->
    spawn_loop fork_res n i pids w
    = (false, pids ++ map fork_res (counts_from i k) ++ [-1],
       emit_all (fork_events fork_res i (S k) ++ [PrFailedDbg "fork"]) w).
Proof.
  induction k as [|k IH]; intros n i pids w Hk Hok Hfail;
    (destruct n as [|n]; [lia|]); cbn [spawn_loop]; unfold epoll_spawn.
  - rewrite Z.add_0_r in Hfail.
    replace (fork_res i <? 0) with true by (symmetry; apply Z.ltb_lt; lia).
    change (-1 <? 0) with true. cbv iota.
    unfold fork_events, counts_from. cbn [seq map app].
    rewrite Z.add_0_r. f_equal.
    unfold emit, emit_all. cbn [trace paths timers].
    now rewrite <- app_assoc.
  - assert (Hi : 0 <= fork_res i) by (apply Hok; lia).
    replace (fork_res i <? 0) with false by (symmetry; apply Z.ltb_ge; lia).
    replace (fork_res i <? 0) with false by (symmetry; apply Z.ltb_ge; lia).
    rewrite (IH n (i + 1)); try lia.
    + unfold fork_events. rewrite !(counts_from_S i). cbn [map].
      f_equal; [f_equal; now rewrite <- !app_assoc|].
      unfold emit, emit_all. cbn [trace paths timers].
      now rewrite <- app_assoc.
    + intros j Hj. apply Hok. lia.
    + replace (i + 1 + Z.of_nat k) with (i + Z.of_nat (S k)) by lia.
      exact Hfail.
Qed.

(** The reap loop, entry by entry. *)
Lemma reap_loop_events (n : nat) :
  forall (i : Z) (pids : list Z) (w : world),
    reap_loop waitpid_res n i pids w
    = emit_all
        (flat_map (fun j => reap_events waitpid_res
                              (nth (Z.to_nat j) pids 0) j)
                  (counts_from i n))
        w.
Proof.
  induction n as [|n IH]; intros i pids w.
  - cbn [reap_loop]. unfold counts_from. cbn [seq map flat_map].
    now rewrite emit_all_nil.
  - cbn [reap_loop]. rewrite IH, counts_from_S. cbn [flat_map].
    unfold reap_events at 2.
    destruct (nth (Z.to_nat i) pids 0 >? 0); [|reflexivity].
    destruct (waitpid_res i <? 0);
      unfold emit, emit_all; cbn [trace paths timers app];
      now rewrite <- !app_assoc.
Qed.

Lemma nth_pids (k : nat) (tail : list Z) (j : Z) :
  0 <= j < Z.of_nat k ->
  nth (Z.to_nat j) (map fork_res (counts_from 0 k) ++ tail) 0 = fork_res j.
Proof.
  intros Hj.
  rewrite app_nth1 by (rewrite length_map, counts_from_length; lia).
  rewrite (nth_indep _ 0 (fork_res 0))
    by (rewrite length_map, counts_from_length; lia).
  rewrite map_nth. f_equal. unfold counts_from.
  rewrite (nth_indep _ 0 (0 + Z.of_nat 0))
    by (rewrite length_map, length_seq; lia).
  rewrite (map_nth (fun i => 0 + Z.of_nat i)), seq_nth by lia. lia.
Qed.

Lemma flat_map_agree {A B : Type} (f g : A -> list B) (l : list A) :
  (forall x, In x l -> f x = g x) -> flat_map f l = flat_map g l.
Proof.
  induction l as [|x l IH]; intros H; [reflexivity|].
  cbn [flat_map]. rewrite H by now left.
  rewrite IH; [reflexivity|]. intros y Hy. apply H. now right.
Qed.

Lemma counts_from_In (c : Z) (n : nat) (x : Z) :
  In x (counts_from c n) -> c <= x < c + Z.of_nat n.
Proof.
  unfold counts_from. intros H. apply in_map_iff in H as (i & <- & Hi).
  apply in_seq in Hi. lia.
Qed.

Lemma flat_map_nil {A B : Type} (f : A -> list B) (l : list A) :
  (forall x, In x l -> f x = []) -> flat_map f l = [].
Proof.
  induction l as [|x l IH]; intros H; [reflexivity|].
  cbn [flat_map]. rewrite H by now left.
  apply IH. intros y Hy. apply H. now right.
Qed.

(** Reaping after [k] successful forks: the [k] children are killed and
    waited for, and no one else. *)
Lemma reap_forked (k n : nat) (tail : list Z) (w : world) :
  (k <= n)%nat ->
  (forall j, nth j tail 0 <= 0) ->
  reap_loop waitpid_res n 0 (map fork_res (counts_from 0 k) ++ tail) w
  = emit_all (reaps fork_res waitpid_res 0 k) w.
Proof.
  intros Hk Htail. rewrite reap_loop_events. f_equal.
  set (pids := map fork_res (counts_from 0 k) ++ tail).
  replace n with (k + (n - k))%nat by lia.
  rewrite (counts_from_app k (n - k) 0), flat_map_app.
  rewrite <- (app_nil_r (reaps fork_res waitpid_res 0 k)). f_equal.
  - unfold reaps. apply flat_map_agree. intros j Hj.
    apply counts_from_In in Hj. subst pids. now rewrite nth_pids by lia.
  - apply flat_map_nil. intros j Hj.
    apply counts_from_In in Hj. subst pids.
    rewrite app_nth2 by (rewrite length_map, counts_from_length; lia).
    unfold reap_events.
    replace (nth _ tail 0 >? 0) with false; [reflexivity|].
    symmetry. apply gtb_false. apply Htail.
Qed.

(** X16: when the fork for child k fails, after k forks that succeeded, no
    further fork is tried and the client does not run: stress_epoll logs the
    failure, kills and waits for the k children it has, and returns
    EXIT_SUCCESS with the counter untouched. *)
Theorem fork_failure_skips_client (k : nat) (count sigaction_res : Z)
        (oracle : list attempt) (w : world) :
  Z.of_nat k < max_servers o ->
  (forall j, 0 <= j < Z.of_nat k -> 0 <= fork_res j) ->
  fork_res (Z.of_nat k) < 0 ->
  stress_epoll o instance max_ops ppid fork_res waitpid_res
               count sigaction_res oracle w
  = Returned EXIT_SUCCESS
      (count,
       emit_all ([port_message o] ++ fork_events fork_res 0 (S k)
                   ++ [PrFailedDbg "fork"]
                   ++ reaps fork_res waitpid_res 0 k) w).
Proof.
  intros Hk Hok Hfail. unfold stress_epoll.
  rewrite (spawn_fails k) by (assumption || lia).
  cbn [app]. rewrite reap_forked.
  - do 2 f_equal. unfold emit, emit_all, port_message.
    cbn [trace paths timers]. rewrite <- !app_assoc. reflexivity.
  - lia.
  - intros [|[|j]]; cbn [nth]; lia.
Qed.

(** X17: when every fork succeeds, stress_epoll forks max_servers children
    before the client starts, and once the client has returned, with
    whatever result, it kills each child with SIGKILL and waits for it, in
    the order of the forks; a failed waitpid is logged and nothing more.  It
    returns EXIT_SUCCESS. *)
Theorem servers_are_reaped (count sigaction_res : Z)
        (oracle : list attempt) (w : world) :
  (forall j, 0 <= j < max_servers o -> 0 <= fork_res j) ->
  let servers := Z.to_nat (max_servers o) in
  let started :=
    emit_all ([port_message o] ++ fork_events fork_res 0 servers) w in
  stress_epoll o instance max_ops ppid fork_res waitpid_res
               count sigaction_res oracle w
  = match epoll_client o instance max_ops ppid count sigaction_res
                       oracle started with
    | Pending s => Pending (counter s, cw s)
    | Returned _ s =>
        Returned EXIT_SUCCESS
                 (counter s,
                  emit_all (reaps fork_res waitpid_res 0 servers) (cw s))
    end.
Proof.
  intros Hok servers started. unfold stress_epoll. fold servers.
  rewrite spawn_all by (intros j Hj; apply Hok; lia).
  cbn [app].
  assert (Hstart : emit_all (fork_events fork_res 0 servers)
                     (emit (port_message o) w) = started).
  { subst started. unfold emit, emit_all. cbn [trace paths timers].
    now rewrite <- app_assoc. }
  unfold port_message in Hstart. rewrite Hstart.
  destruct (epoll_client _ _ _ _ _ _ _ _) as [rc s|s]; [|reflexivity].
  rewrite <- (app_nil_r (map fork_res (counts_from 0 servers))).
  rewrite reap_forked; [reflexivity|lia|].
  intros [|j]; cbn [nth]; lia.
Qed.

End Reaping.

Lemma fork_failure_skips_client_witness :
  let o := mkOptions AF_INET 6000 4 in
  let fork_res := fun i => if i <? 2 then 100 + i else -1 in
  let waitpid_res := fun i : Z => 0 in
  Z.of_nat 2 < max_servers o
  /\ fork_res (Z.of_nat 2) < 0
  /\ stress_epoll o 0 0 1234 fork_res waitpid_res 0 0 [complete] no_world
     = Returned EXIT_SUCCESS
         (0,
          emit_all ([port_message o] ++ fork_events fork_res 0 3
                      ++ [PrFailedDbg "fork"]
                      ++ reaps fork_res waitpid_res 0 2) no_world).
Proof.
  intros o fork_res waitpid_res.
  assert (Hk : Z.of_nat 2 < max_servers o) by (cbn; lia).
  assert (Hfail : fork_res (Z.of_nat 2) < 0) by (cbn; lia).
  assert (Hok : forall j, 0 <= j < Z.of_nat 2 -> 0 <= fork_res j).
  { intros j Hj. subst fork_res. cbv beta.
    replace (j <? 2) with true by (symmetry; apply Z.ltb_lt; lia). lia. }
  split; [exact Hk|]. split; [exact Hfail|].
  exact (fork_failure_skips_client o 0 0 1234 fork_res waitpid_res 2 0 0
           [complete] no_world Hk Hok Hfail).
Defined.

Lemma servers_are_reaped_witness :
  let o := mkOptions AF_INET 6000 4 in
  let fork_res := fun i => 100 + i in
  let waitpid_res := fun i : Z => if i =? 3 then -1 else 0 in
  let started := emit_all ([port_message o] ++ fork_events fork_res 0 4)
                          no_world in
  stress_epoll o 0 0 1234 fork_res waitpid_res 0 0 (repeat refused 101)
               no_world
  = match epoll_client o 0 0 1234 0 0 (repeat refused 101) started with
    | Pending s => Pending (counter s, cw s)
    | Returned _ s =>
        Returned EXIT_SUCCESS
                 (counter s, emit_all (reaps fork_res waitpid_res 0 4) (cw s))
    end.
Proof.
  intros o fork_res waitpid_res started.
  assert (Hok : forall j, 0 <= j < max_servers o -> 0 <= fork_res j).
  { intros j Hj. subst fork_res. cbv beta. lia. }
  exact (servers_are_reaped o 0 0 1234 fork_res waitpid_res 0 0
           (repeat refused 101) no_world Hok).
Defined.

(** ** The endpoints of the workers *)

(** X18: the addresses the servers bind are pairwise different: for a
    registered domain, two different pairs (instance, child), with child
    indices below max_servers and ports
    opt_epoll_port + child + max_servers * instance within 0..65535, bind
    different addresses, by port for ipv4 and ipv6 and by path for unix. *)
Theorem bind_addresses_differ (o : options) (ppid : Z)
        (i1 w1 i2 w2 : Z) :
  registered o ->
  0 <= i1 -> 0 <= i2 ->
  0 <= w1 < max_servers o ->
  0 <= w2 < max_servers o ->
  port_range (opt_epoll_port o + w1 + max_servers o * i1) ->
  port_range (opt_epoll_port o + w2 + max_servers o * i2) ->
  (i1, w1) <> (i2, w2) ->
  bind_addr o i1 ppid (server_port o w1 i1)
  <> bind_addr o i2 ppid (server_port o w2 i2).
Proof.
  intros Hreg Hi1 Hi2 Hw1 Hw2 Hp1 Hp2 Hne.
  assert (Hr : forall z, port_range z -> int_range z).
  { unfold port_range, int_range. intros z Hz. lia. }
  rewrite !server_port_formula by now apply Hr.
  assert (Hports : opt_epoll_port o + w1 + max_servers o * i1
                   <> opt_epoll_port o + w2 + max_servers o * i2).
  { intros Heq. apply Hne.
    assert (i1 = i2) by nia. subst i2. f_equal. lia. }
  unfold bind_addr.
  destruct (registered_cases o Hreg) as [[Hd Hm]|[[Hd Hm]|[Hd Hm]]];
    rewrite Hd; cbn [Z.eqb AF_INET AF_INET6 AF_UNIX Pos.eqb].
  - rewrite !htons_small by assumption. congruence.
  - rewrite !htons_small by assumption. congruence.
  - intros Heq.
    assert (Hpath : sun_path ppid i1 = sun_path ppid i2) by congruence.
    apply sun_path_parts in Hpath; try assumption.
    apply Hne. rewrite Hm in Hw1, Hw2.
    f_equal; [tauto|lia].
Qed.

Lemma bind_addresses_differ_witness :
  let o := mkOptions AF_INET 6000 4 in
  0 <= 1 /\ 0 <= 2
  /\ 0 <= 3 < max_servers o /\ 0 <= 0 < max_servers o
  /\ port_range (opt_epoll_port o + 3 + max_servers o * 1)
  /\ port_range (opt_epoll_port o + 0 + max_servers o * 2)
  /\ (1, 3) <> (2, 0)
  /\ bind_addr o 1 1234 (server_port o 3 1)
     <> bind_addr o 2 1234 (server_port o 0 2).
Proof.
  intros o.
  assert (Hreg : registered o).
  { exists (mkDomain "ipv4" AF_INET 4). cbn. intuition. }
  assert (H1 : 0 <= 1) by lia.
  assert (H2 : 0 <= 2) by lia.
  assert (Hw1 : 0 <= 3 < max_servers o) by (cbn; lia).
  assert (Hw2 : 0 <= 0 < max_servers o) by (cbn; lia).
  assert (Hp1 : port_range (opt_epoll_port o + 3 + max_servers o * 1))
    by (unfold port_range; cbn; lia).
  assert (Hp2 : port_range (opt_epoll_port o + 0 + max_servers o * 2))
    by (unfold port_range; cbn; lia).
  assert (Hne : (1, 3) <> (2, 0)) by (intros H; discriminate H).
  repeat (split; [assumption|]).
  exact (bind_addresses_differ o 1234 1 3 2 0 Hreg H1 H2 Hw1 Hw2 Hp1 Hp2 Hne).
Defined.

(** ** Broken descriptors *)

(** X19: a pass in which every reported event carries EPOLLERR or EPOLLHUP or
    lacks EPOLLIN closes each reported descriptor, in the order of the
    events, and does nothing else: nothing is accepted or read, also when
    one of the descriptors is the listening socket. *)
Theorem broken_descriptors_are_closed (efd sfd : Z) (evs : list ready) :
  forall w : world,
    forallb broken evs = true ->
    handle_events efd sfd evs w
    = Some (emit_all (map (fun e => Close (ev_fd e)) evs) w).
Proof.
  induction evs as [|e evs IH]; intros w Hall.
  - cbn [handle_events map]. now rewrite emit_all_nil.
  - cbn [forallb] in Hall. apply andb_prop in Hall as [He Hall].
    unfold broken in He. cbn [handle_events map]. rewrite He.
    rewrite IH by assumption. f_equal.
    unfold emit, emit_all. cbn [trace paths timers].
    now rewrite <- app_assoc.
Qed.

Lemma broken_descriptors_are_closed_witness :
  let evs := [mkReady EPOLLHUP 7 [] []; mkReady 0 4 [] [];
              mkReady (Z.lor EPOLLIN EPOLLERR) 8 [] []] in
  forallb broken evs = true
  /\ handle_events 5 4 evs no_world
     = Some (emit_all (map (fun e => Close (ev_fd e)) evs) no_world).
Proof.
  intros evs.
  assert (Hall : forallb broken evs = true) by reflexivity.
  split; [exact Hall|].
  exact (broken_descriptors_are_closed 5 4 evs no_world Hall).
Defined.

Lemma client_return_and_path_witness :
  let o := initial_options 6000 in
  let w := mkWorld [] [sun_path 1234 0; sun_path 1234 1] [] in
  match epoll_client o 0 1 1234 0 0 [complete] w with
  | Pending s' => paths (cw s') = paths w
  | Returned rc s' =>
      (rc = -1 /\ paths (cw s') = paths w)
      \/ (rc = EXIT_SUCCESS
          /\ paths (cw s')
             = (if opt_epoll_domain o =? AF_UNIX
                then paths_without (sun_path 1234 0) (paths w)
                else paths w)
          /\ (opt_epoll_domain o = AF_UNIX ->
              path_exists (sun_path 1234 0) (cw s') = false))
  end.
Proof.
  intros o w.
  exact (client_return_and_path o 0 1 1234 0 0 [complete] w).
Defined.

(** ** Failures that are not consecutive *)

Section ClientRetries.

Variable o : options.
Variables (instance max_ops ppid : Z).
Hypothesis Hreg : registered o.

(** X20: the retry bound counts consecutive failures only: without an
    operation limit, up to 100 failed attempts, a successful cycle and up to
    100 more failed attempts leave the client running, however many attempts
    have failed in total. *)
Theorem success_resets_retry_bound (before : list attempt) (a : attempt)
        (after : list attempt) (s : client_state) :
  max_ops = 0 ->
  forallb fails_transiently before = true ->
  Z.of_nat (List.length before) <= 100 ->
  succeeds a = true ->
  do_run_cond a = true ->
  forallb fails_transiently after = true ->
  Z.of_nat (List.length after) <= 100 ->
  exists s',
    client_loop o instance max_ops ppid true (before ++ a :: after) s
    = Pending s'
    /\ counter s' = uint64 (counter s + 1)
    /\ count is_connect (trace (cw s'))
       = (count is_connect (trace (cw s))
          + List.length before + 1 + List.length after)%nat.
Proof.
  intros Hmax Hbefore Hlen1 Ha Hrun Hafter Hlen2.
  assert (Hfresh :
            client_loop o instance max_ops ppid true (before ++ a :: after) s
            = client_loop o instance max_ops ppid false
                          (before ++ a :: after) (loop_head o instance s))
    by (destruct before; reflexivity).
  rewrite Hfresh.
  destruct (retries_then o instance max_ops ppid Hreg before (a :: after)
              (loop_head o instance s) Hbefore)
    as (addr & s1 & _ & Hloop & Hcnt1 & _ & _ & Hcon1 & _);
    try (cbn [retries loop_head]; lia).
  rewrite Hloop. cbn [client_loop].
  destruct (attempt_succeeds o instance max_ops ppid Hreg a s1 Ha)
    as (addr' & s2 & _ & Hstep & Hret2 & Hcnt2 & _ & _ & _ & _ & Htr2).
  rewrite Hstep, Hrun.
  replace (max_ops =? 0) with true by (now rewrite Hmax).
  cbn [andb orb].
  cbn [loop_head cw counter] in Hcon1, Hcnt1.
  assert (Hcon2 : count is_connect (trace (cw s2))
                  = (count is_connect (trace (cw s))
                     + List.length before + 1)%nat).
  { rewrite Htr2. unfold connect_events. rewrite !count_app, Hcon1.
    count_events. }
  destruct after as [|b after].
  - exists s2. cbn [client_loop List.length].
    split; [reflexivity|]. split; [congruence|lia].
  - rewrite loop_fresh.
    destruct (retries_within_bound o instance max_ops ppid Hreg (b :: after)
                (loop_head o instance s2) Hafter)
      as (s3 & Hloop3 & _ & Hcnt3 & Hcon3 & _);
      try (cbn [retries loop_head]; lia).
    exists s3. split; [exact Hloop3|].
    cbn [loop_head cw counter] in Hcnt3, Hcon3.
    split; [congruence|]. rewrite Hcon3, Hcon2. lia.
Qed.

End ClientRetries.

Lemma success_resets_retry_bound_witness :
  let o := initial_options 6000 in
  (0 : Z) = 0
  /\ forallb fails_transiently (repeat refused 100) = true
  /\ Z.of_nat (List.length (repeat refused 100)) <= 100
  /\ succeeds complete = true
  /\ do_run_cond complete = true
  /\ exists s',
      client_loop o 0 0 1234 true
                  (repeat refused 100 ++ complete :: repeat refused 100)
                  client_start
      = Pending s'
      /\ counter s' = uint64 (counter client_start + 1)
      /\ count is_connect (trace (cw s'))
         = (count is_connect (trace (cw client_start))
            + List.length (repeat refused 100) + 1
            + List.length (repeat refused 100))%nat.
Proof.
  intros o.
  assert (Hall : forallb fails_transiently (repeat refused 100) = true)
    by (vm_compute; reflexivity).
  assert (Hlen : Z.of_nat (List.length (repeat refused 100)) <= 100)
    by (vm_compute; discriminate).
  assert (Ha : succeeds complete = true) by reflexivity.
  assert (Hrun : do_run_cond complete = true) by reflexivity.
  split; [reflexivity|]. split; [exact Hall|]. split; [exact Hlen|].
  split; [exact Ha|]. split; [exact Hrun|].
  exact (success_resets_retry_bound o 0 0 1234
           (initial_options_registered 6000)
           (repeat refused 100) complete (repeat refused 100) client_start
           eq_refl Hall Hlen Ha Hrun Hall Hlen).
Defined.
